(** * Symbol tables: a chained hash table and a linked list

    A shallow embedding of [symtablehash.c] and [symtablelist.c] and the
    properties of the two implementations of [symtable.h].

    Conventions of the embedding:
    - a [size_t] is a [Z] in [0, 2^size_bits); every arithmetic operation the
      C code performs on one is written with its wrap-around ([size_add],
      [size_sub], [size_mul]);
    - a [const char *] argument is an [option string]: [None] is the NULL
      pointer, [Some s] points to the characters [s] that precede the
      terminating NUL;
    - a [void *] is an address, a [Z], and [NULL] is 0;
    - a chain of [struct Binding] nodes linked through [next] is the list of
      its nodes, head first;
    - a [SymTable_T] is an [option]: NULL or a pointer to the live table; a
      function that writes through the pointer returns the new contents;
    - a call either returns ([Done]), stops in a failed [assert] ([Abort]),
      or has no defined behaviour ([Undefined]: a read past the end of an
      array, a division by zero);
    - the outcome of every [malloc]/[calloc] is an argument of the call. *)

From Stdlib Require Import ZArith String Ascii Lia Permutation.
From stdpp Require Import base tactics option list strings.

Local Open Scope Z_scope.

(** ** Outcomes of a call *)

Inductive result (A : Type) : Type :=
  | Done (a : A)
  | Abort
  | Undefined.
Arguments Done {A} a.
Arguments Abort {A}.
Arguments Undefined {A}.

#[export] Instance result_ret : MRet result := λ A a, Done a.
#[export] Instance result_bind : MBind result := λ A B f m,
  match m with
  | Done a => f a
  | Abort => Abort
  | Undefined => Undefined
  end.

(** [assert(p != NULL)] *)
Definition assert_nonnull {A : Type} (p : option A) : result A :=
  match p with
  | Some a => Done a
  | None => Abort
  end.

(** [arr[i]] as an rvalue and as an lvalue. *)
Definition read_array {A : Type} (arr : list A) (i : Z) : result A :=
  if i <? 0 then Undefined
  else match arr !! Z.to_nat i with
       | Some x => Done x
       | None => Undefined
       end.

Definition write_array {A : Type} (arr : list A) (i : Z) (x : A)
  : result (list A) :=
  if (0 <=? i) && (i <? Z.of_nat (List.length arr))
  then Done (<[Z.to_nat i := x]> arr)
  else Undefined.

(** [for (i = start; i < start + n; i++) body] *)
Fixpoint for_loop {S : Type} (n : nat) (i : Z)
    (body : Z → S → result S) (s : S) : result S :=
  match n with
  | O => Done s
  | Datatypes.S n' => s' ← body i s; for_loop n' (i + 1) body s'
  end.

(** ** The platform: width of [size_t], signedness of plain [char] *)

Class Platform : Type := {
  size_bits : Z;
  char_is_signed : bool;
  size_bits_min : 16 <= size_bits
}.

Section Machine.
Context {P : Platform}.

Definition size_wrap (z : Z) : Z := z mod 2 ^ size_bits.
Definition size_add (a b : Z) : Z := size_wrap (a + b).
Definition size_sub (a b : Z) : Z := size_wrap (a - b).
Definition size_mul (a b : Z) : Z := size_wrap (a * b).

(** The value of a [char] holding the byte [c]. *)
Definition char_value (c : ascii) : Z :=
  let n := Z.of_N (N_of_ascii c) in
  if char_is_signed && (128 <=? n) then n - 256 else n.

(** [(size_t)c] *)
Definition size_of_char (c : ascii) : Z := size_wrap (char_value c).
End Machine.

Definition ptr : Type := Z.
Definition NULL : ptr := 0.

(** [strcmp]: the sign of the first difference, bytes compared unsigned. *)
Definition strcmp (a b : string) : Z :=
  match String.compare a b with
  | Eq => 0
  | Lt => -1
  | Gt => 1
  end.

(** [struct Binding]; [next] is the tail of the chain the node is in. *)
Record Binding : Type := { key : string; value : ptr }.

#[export] Instance Binding_eq_dec : EqDecision Binding.
Proof. solve_decision. Defined.

(** The loop shared by put, contains and get:
    [for (b = chain; b != NULL; b = b->next) if (strcmp(pcKey, b->key) == 0) ...] *)
Fixpoint chain_find (pcKey : string) (chain : list Binding) : option Binding :=
  match chain with
  | [] => None
  | b :: next =>
      if strcmp pcKey (key b) =? 0 then Some b else chain_find pcKey next
  end.

(** The loop of replace: the node found gets the new value; the old one is
    returned. *)
Fixpoint chain_replace (pcKey : string) (pvValue : ptr) (chain : list Binding)
  : option (ptr * list Binding) :=
  match chain with
  | [] => None
  | b :: next =>
      if strcmp pcKey (key b) =? 0
      then Some (value b, {| key := key b; value := pvValue |} :: next)
      else match chain_replace pcKey pvValue next with
           | Some (old, next') => Some (old, b :: next')
           | None => None
           end
  end.

(** The loop of remove: the node found is unlinked, from the head
    ([previousBinding == NULL]) or from its predecessor. *)
Fixpoint chain_remove (pcKey : string) (chain : list Binding)
  : option (ptr * list Binding) :=
  match chain with
  | [] => None
  | b :: next =>
      if strcmp pcKey (key b) =? 0
      then Some (value b, next)
      else match chain_remove pcKey next with
           | Some (removed, next') => Some (removed, b :: next')
           | None => None
           end
  end.

(** [for (b = chain; b != NULL; b = b->next) body] *)
Fixpoint for_chain {A S : Type} (chain : list A)
    (body : A → S → result S) (s : S) : result S :=
  match chain with
  | [] => Done s
  | b :: next => s' ← body b s; for_chain next body s'
  end.

(** A function to apply: it receives the key, the value and [pvExtra], and
    acts on the caller's state. *)
Definition pfApply_t (S : Type) : Type := string → ptr → ptr → S → S.

(** What the allocator answers during one call of put. *)
Record Alloc : Type := {
  calloc_buckets : bool;
  malloc_binding : bool;
  malloc_key : bool
}.

Definition all_ok : Alloc :=
  {| calloc_buckets := true; malloc_binding := true; malloc_key := true |}.

(** ** symtablehash.c *)

Module SymTableHash.

Definition primeBuckCounts : list Z :=
  [509; 1021; 2039; 4093; 8191; 16381; 32749; 65521].

Record SymTable : Type := {
  buckets : list (list Binding);
  length : Z;
  numBuckets : Z
}.

Definition SymTable_T : Type := option SymTable.

Section Code.
Context {P : Platform}.

Definition HASH_MULTIPLIER : Z := size_wrap 65599.

Fixpoint hash_loop (pcKey : string) (uHash : Z) : Z :=
  match pcKey with
  | EmptyString => uHash
  | String c rest =>
      hash_loop rest
        (size_add (size_mul uHash HASH_MULTIPLIER) (size_of_char c))
  end.

Definition SymTable_hash (pcKey : option string) (uBucketCount : Z)
  : result Z :=
  k ← assert_nonnull pcKey;
  let uHash := hash_loop k 0 in
  if uBucketCount =? 0 then Undefined else Done (uHash mod uBucketCount).

(** [calloc(n, ...)] for an array of [n] chain heads: [n] empty chains. *)
Definition calloc_array (n : Z) : list (list Binding) :=
  replicate (Z.to_nat n) [].

Definition SymTable_new (malloc_table calloc_array_ok : bool)
  : result SymTable_T :=
  if negb malloc_table then Done None
  else
    first ← read_array primeBuckCounts 0;
    if negb calloc_array_ok then Done None
    else Done (Some {| buckets := calloc_array first;
                       length := 0;
                       numBuckets := first |}).

(** The keys whose copies are released, in the order of the calls of
    [free]. *)
Definition SymTable_free (oSymTable : SymTable_T) : result (list string) :=
  t ← assert_nonnull oSymTable;
  for_loop (Z.to_nat (numBuckets t)) 0
    (λ bucketNumber freed,
       chain ← read_array (buckets t) bucketNumber;
       for_chain chain
         (λ thisBinding freed, Done (freed ++ [key thisBinding])) freed)
    [].

Definition SymTable_getLength (oSymTable : SymTable_T) : result Z :=
  t ← assert_nonnull oSymTable;
  Done (length t).

(** [while (primeBuckCounts[index] != numBuckets) index += 1;] on the
    part of the array that starts at [index]. *)
Fixpoint find_index (arr : list Z) (index : Z) (target : Z) : result Z :=
  match arr with
  | [] => Undefined
  | p :: rest =>
      if negb (p =? target) then find_index rest (index + 1) target
      else Done index
  end.

(** The two nested loops of the expansion: every binding of every old
    chain is pushed at the head of its new chain. *)
Definition rehash_chain (newNumBuckets : Z) (chain : list Binding)
    (newBuckets : list (list Binding)) : result (list (list Binding)) :=
  for_chain chain
    (λ thisBinding newBuckets,
       newBucket ← SymTable_hash (Some (key thisBinding)) newNumBuckets;
       head ← read_array newBuckets newBucket;
       write_array newBuckets newBucket (thisBinding :: head))
    newBuckets.

Definition SymTable_expand (calloc_ok : bool) (oSymTable : SymTable)
  : result SymTable :=
  index ← find_index primeBuckCounts 0 (numBuckets oSymTable);
  newNumBuckets ← read_array primeBuckCounts (index + 1);
  if negb calloc_ok then Done oSymTable
  else
    newBuckets ←
      for_loop (Z.to_nat (numBuckets oSymTable)) 0
        (λ bucket newBuckets,
           chain ← read_array (buckets oSymTable) bucket;
           rehash_chain newNumBuckets chain newBuckets)
        (calloc_array newNumBuckets);
    Done {| buckets := newBuckets;
            length := length oSymTable;
            numBuckets := newNumBuckets |}.

(** The first statement of put. *)
Definition grow_if_needed (calloc_ok : bool) (t : SymTable)
  : result SymTable :=
  if length t >? numBuckets t then
    let maximum := Z.of_nat (List.length primeBuckCounts) in
    last ← read_array primeBuckCounts (maximum - 1);
    if numBuckets t <? last then SymTable_expand calloc_ok t
    else Done t
  else Done t.

Definition SymTable_put (a : Alloc) (oSymTable : SymTable_T)
    (pcKey : option string) (pvValue : ptr) : result (Z * SymTable) :=
  t ← assert_nonnull oSymTable;
  k ← assert_nonnull pcKey;
  t ← grow_if_needed (calloc_buckets a) t;
  bucket ← SymTable_hash (Some k) (numBuckets t);
  chain ← read_array (buckets t) bucket;
  match chain_find k chain with
  | Some _ => Done (0, t)
  | None =>
      if negb (malloc_binding a) then Done (0, t)
      else if negb (malloc_key a) then Done (0, t)
      else
        newBuckets ←
          write_array (buckets t) bucket
            ({| key := k; value := pvValue |} :: chain);
        Done (1, {| buckets := newBuckets;
                    length := size_add (length t) 1;
                    numBuckets := numBuckets t |})
  end.

Definition SymTable_replace (oSymTable : SymTable_T)
    (pcKey : option string) (pvValue : ptr) : result (ptr * SymTable) :=
  t ← assert_nonnull oSymTable;
  k ← assert_nonnull pcKey;
  bucket ← SymTable_hash (Some k) (numBuckets t);
  chain ← read_array (buckets t) bucket;
  match chain_replace k pvValue chain with
  | None => Done (NULL, t)
  | Some (oldValue, chain') =>
      newBuckets ← write_array (buckets t) bucket chain';
      Done (oldValue, {| buckets := newBuckets;
                         length := length t;
                         numBuckets := numBuckets t |})
  end.

Definition SymTable_contains (oSymTable : SymTable_T)
    (pcKey : option string) : result Z :=
  t ← assert_nonnull oSymTable;
  k ← assert_nonnull pcKey;
  bucket ← SymTable_hash (Some k) (numBuckets t);
  chain ← read_array (buckets t) bucket;
  match chain_find k chain with
  | Some _ => Done 1
  | None => Done 0
  end.

Definition SymTable_get (oSymTable : SymTable_T)
    (pcKey : option string) : result ptr :=
  t ← assert_nonnull oSymTable;
  k ← assert_nonnull pcKey;
  bucket ← SymTable_hash (Some k) (numBuckets t);
  chain ← read_array (buckets t) bucket;
  match chain_find k chain with
  | Some binding => Done (value binding)
  | None => Done NULL
  end.

Definition SymTable_remove (oSymTable : SymTable_T)
    (pcKey : option string) : result (ptr * SymTable) :=
  t ← assert_nonnull oSymTable;
  k ← assert_nonnull pcKey;
  bucket ← SymTable_hash (Some k) (numBuckets t);
  chain ← read_array (buckets t) bucket;
  match chain_remove k chain with
  | None => Done (NULL, t)
  | Some (removedValue, chain') =>
      newBuckets ← write_array (buckets t) bucket chain';
      Done (removedValue, {| buckets := newBuckets;
                             length := size_sub (length t) 1;
                             numBuckets := numBuckets t |})
  end.

(** The table is only read: the call returns the caller's state. *)
Definition SymTable_map {S : Type} (oSymTable : SymTable_T)
    (pfApply : option (pfApply_t S)) (pvExtra : ptr) (s : S) : result S :=
  t ← assert_nonnull oSymTable;
  f ← assert_nonnull pfApply;
  for_loop (Z.to_nat (numBuckets t)) 0
    (λ bucketNumber s,
       chain ← read_array (buckets t) bucketNumber;
       for_chain chain
         (λ binding s, Done (f (key binding) (value binding) pvExtra s)) s)
    s.

End Code.
End SymTableHash.

(** ** symtablelist.c *)

Module SymTableList.

Record SymTable : Type := {
  firstBinding : list Binding;
  length : Z
}.

Definition SymTable_T : Type := option SymTable.

Section Code.
Context {P : Platform}.

Definition SymTable_new (malloc_table : bool) : result SymTable_T :=
  if negb malloc_table then Done None
  else Done (Some {| firstBinding := []; length := 0 |}).

Definition SymTable_free (oSymTable : SymTable_T) : result (list string) :=
  t ← assert_nonnull oSymTable;
  for_chain (firstBinding t)
    (λ thisBinding freed, Done (freed ++ [key thisBinding])) [].

Definition SymTable_getLength (oSymTable : SymTable_T) : result Z :=
  t ← assert_nonnull oSymTable;
  Done (length t).

Definition SymTable_put (a : Alloc) (oSymTable : SymTable_T)
    (pcKey : option string) (pvValue : ptr) : result (Z * SymTable) :=
  t ← assert_nonnull oSymTable;
  k ← assert_nonnull pcKey;
  match chain_find k (firstBinding t) with
  | Some _ => Done (0, t)
  | None =>
      if negb (malloc_binding a) then Done (0, t)
      else if negb (malloc_key a) then Done (0, t)
      else
        Done (1, {| firstBinding :=
                      {| key := k; value := pvValue |} :: firstBinding t;
                    length := size_add (length t) 1 |})
  end.

Definition SymTable_replace (oSymTable : SymTable_T)
    (pcKey : option string) (pvValue : ptr) : result (ptr * SymTable) :=
  t ← assert_nonnull oSymTable;
  k ← assert_nonnull pcKey;
  match chain_replace k pvValue (firstBinding t) with
  | None => Done (NULL, t)
  | Some (oldValue, chain') =>
      Done (oldValue, {| firstBinding := chain'; length := length t |})
  end.

Definition SymTable_contains (oSymTable : SymTable_T)
    (pcKey : option string) : result Z :=
  t ← assert_nonnull oSymTable;
  k ← assert_nonnull pcKey;
  match chain_find k (firstBinding t) with
  | Some _ => Done 1
  | None => Done 0
  end.

Definition SymTable_get (oSymTable : SymTable_T)
    (pcKey : option string) : result ptr :=
  t ← assert_nonnull oSymTable;
  k ← assert_nonnull pcKey;
  match chain_find k (firstBinding t) with
  | Some binding => Done (value binding)
  | None => Done NULL
  end.

Definition SymTable_remove (oSymTable : SymTable_T)
    (pcKey : option string) : result (ptr * SymTable) :=
  t ← assert_nonnull oSymTable;
  k ← assert_nonnull pcKey;
  match chain_remove k (firstBinding t) with
  | None => Done (NULL, t)
  | Some (removedValue, chain') =>
      Done (removedValue, {| firstBinding := chain';
                             length := size_sub (length t) 1 |})
  end.

Definition SymTable_map {S : Type} (oSymTable : SymTable_T)
    (pfApply : option (pfApply_t S)) (pvExtra : ptr) (s : S) : result S :=
  t ← assert_nonnull oSymTable;
  f ← assert_nonnull pfApply;
  for_chain (firstBinding t)
    (λ binding s, Done (f (key binding) (value binding) pvExtra s)) s.

End Code.
End SymTableList.

(** ** The hash function, as the specification words it *)

(** The polynomial [c0 * 65599^(n-1) + ... + c(n-1)] over the characters'
    values, left to right. *)
Fixpoint polynomial (cs : list Z) : Z :=
  match cs with
  | [] => 0
  | c :: rest => c * 65599 ^ Z.of_nat (List.length rest) + polynomial rest
  end.

(** The value of a byte of the key, 0 to 255. *)
Definition byte_value (c : ascii) : Z := Z.of_N (N_of_ascii c).

(** "A polynomial rolling hash (multiplier 65599 applied left-to-right over
    byte values, accumulated in a fixed-width unsigned integer, then reduced
    modulo bucketCount)". *)
Definition rolling_hash {P : Platform} (pcKey : string) (uBucketCount : Z) : Z :=
  (polynomial (byte_value <$> list_ascii_of_string pcKey) mod 2 ^ size_bits)
    mod uBucketCount.

(** The same polynomial over the bytes as a platform reads them: where plain
    [char] is signed a byte of 128 or more counts as the byte minus 256. *)
Definition value_read (signed : bool) (c : ascii) : Z :=
  if signed
  then (if 128 <=? byte_value c then byte_value c - 256 else byte_value c)
  else byte_value c.

Definition rolling_hash_as_read {P : Platform}
    (pcKey : string) (uBucketCount : Z) : Z :=
  (polynomial (value_read char_is_signed <$> list_ascii_of_string pcKey)
     mod 2 ^ size_bits)
    mod uBucketCount.

(** Two platforms to evaluate on: 64-bit [size_t] with unsigned [char]
    (AArch64 Linux) and with signed [char] (x86-64 Linux). *)
Definition lp64_unsigned : Platform :=
  {| size_bits := 64; char_is_signed := false;
     size_bits_min := ltac:(lia) |}.
Definition lp64_signed : Platform :=
  {| size_bits := 64; char_is_signed := true;
     size_bits_min := ltac:(lia) |}.

(** ** Invariants of the hash table *)

Module H := SymTableHash.
Module L := SymTableList.

Section Invariants.
Context {P : Platform}.

(** The value [SymTable_hash] returns for a non-null key and a non-zero
    bucket count. *)
Definition hash_index (k : string) (n : Z) : Z := H.hash_loop k 0 mod n.

(** Every binding of the table, in bucket order, then chain order. *)
Definition bindings (t : H.SymTable) : list Binding := concat (H.buckets t).

(** The chains [bs] are those of the buckets [i], [i+1], ... and every
    binding is in the chain of its hash. *)
Fixpoint chains_hashed (n : Z) (i : Z) (bs : list (list Binding)) : Prop :=
  match bs with
  | [] => True
  | chain :: rest =>
      Forall (λ b, hash_index (key b) n = i) chain
      ∧ chains_hashed n (i + 1) rest
  end.

(** The invariants of the data structure: the bucket count is one of the
    primes, the array has that many chains, every binding is in the chain
    of its hash, keys are unique. *)
Definition shape (t : H.SymTable) : Prop :=
  H.numBuckets t ∈ H.primeBuckCounts
  ∧ Z.of_nat (length (H.buckets t)) = H.numBuckets t
  ∧ chains_hashed (H.numBuckets t) 0 (H.buckets t)
  ∧ NoDup (key <$> bindings t).

(** [length] is the number of bindings (and, being a [size_t], is below
    [2^size_bits]). *)
Definition counted (t : H.SymTable) : Prop :=
  H.length t = Z.of_nat (length (bindings t))
  ∧ H.length t < 2 ^ size_bits.

(** The same two invariants for the linked list. *)
Definition list_shape (t : L.SymTable) : Prop :=
  NoDup (key <$> L.firstBinding t).

Definition list_counted (t : L.SymTable) : Prop :=
  L.length t = Z.of_nat (length (L.firstBinding t))
  ∧ L.length t < 2 ^ size_bits.

(** The tables a client can obtain: a successful [SymTable_new] followed by
    calls of the functions that write to the table, with any arguments and
    any answers of the allocator. *)
Inductive reachable : H.SymTable → Prop :=
  | reachable_new t :
      H.SymTable_new true true = Done (Some t) → reachable t
  | reachable_put a t k v r t' :
      reachable t →
      H.SymTable_put a (Some t) (Some k) v = Done (r, t') →
      reachable t'
  | reachable_replace t k v old t' :
      reachable t →
      H.SymTable_replace (Some t) (Some k) v = Done (old, t') →
      reachable t'
  | reachable_remove t k removed t' :
      reachable t →
      H.SymTable_remove (Some t) (Some k) = Done (removed, t') →
      reachable t'.

(** The bindings of [l] that belong to bucket [j] of [n], in the order of
    [l]. *)
Definition chain_of (n : Z) (j : nat) (l : list Binding) : list Binding :=
  filter (λ b, hash_index (key b) n = Z.of_nat j) l.

(** The condition under which put replaces the bucket array by a larger
    one: more bindings than buckets, not yet the last bucket count,
    and memory for the new array. *)
Definition grows (calloc_ok : bool) (t : H.SymTable) : bool :=
  (H.length t >? H.numBuckets t) && negb (H.numBuckets t =? 65521)
  && calloc_ok.

(** The next element of [primeBuckCounts] after [n]. *)
Definition next_prime (n n' : Z) : Prop :=
  ∃ i : nat, H.primeBuckCounts !! i = Some n
             ∧ H.primeBuckCounts !! S i = Some n'.
End Invariants.

(** ** Sessions: a sequence of calls on a fresh table *)

Inductive op : Type :=
  | Put (a : Alloc) (k : option string) (v : ptr)
  | Get (k : option string)
  | Contains (k : option string)
  | Replace (k : option string) (v : ptr)
  | Remove (k : option string)
  | GetLength
  | Map (with_function : bool) (extra : ptr).

(** What the client sees of a call: the value returned or, for map, the
    arguments of the calls of its function, in order. *)
Inductive observation : Type :=
  | RetInt (r : Z)
  | RetPtr (p : ptr)
  | RetSize (n : Z)
  | Calls (args : list (string * ptr * ptr)).

Definition record_call : pfApply_t (list (string * ptr * ptr)) :=
  λ k v extra calls, calls ++ [(k, v, extra)].

Definition map_function (with_function : bool)
  : option (pfApply_t (list (string * ptr * ptr))) :=
  if with_function then Some record_call else None.

Section Sessions.
Context {P : Platform}.

Definition hash_step (t : H.SymTable) (o : op)
  : result (observation * H.SymTable) :=
  match o with
  | Put a k v => '(r, t') ← H.SymTable_put a (Some t) k v; Done (RetInt r, t')
  | Get k => p ← H.SymTable_get (Some t) k; Done (RetPtr p, t)
  | Contains k => r ← H.SymTable_contains (Some t) k; Done (RetInt r, t)
  | Replace k v =>
      '(p, t') ← H.SymTable_replace (Some t) k v; Done (RetPtr p, t')
  | Remove k => '(p, t') ← H.SymTable_remove (Some t) k; Done (RetPtr p, t')
  | GetLength => n ← H.SymTable_getLength (Some t); Done (RetSize n, t)
  | Map fn extra =>
      calls ← H.SymTable_map (Some t) (map_function fn) extra [];
      Done (Calls calls, t)
  end.

Definition list_step (t : L.SymTable) (o : op)
  : result (observation * L.SymTable) :=
  match o with
  | Put a k v => '(r, t') ← L.SymTable_put a (Some t) k v; Done (RetInt r, t')
  | Get k => p ← L.SymTable_get (Some t) k; Done (RetPtr p, t)
  | Contains k => r ← L.SymTable_contains (Some t) k; Done (RetInt r, t)
  | Replace k v =>
      '(p, t') ← L.SymTable_replace (Some t) k v; Done (RetPtr p, t')
  | Remove k => '(p, t') ← L.SymTable_remove (Some t) k; Done (RetPtr p, t')
  | GetLength => n ← L.SymTable_getLength (Some t); Done (RetSize n, t)
  | Map fn extra =>
      calls ← L.SymTable_map (Some t) (map_function fn) extra [];
      Done (Calls calls, t)
  end.

(** Runs the calls in order; a call that does not return ends the run. *)
Fixpoint run {T : Type} (step : T → op → result (observation * T))
    (t : T) (ops : list op) : result (list observation * T) :=
  match ops with
  | [] => Done ([], t)
  | o :: rest =>
      '(r, t') ← step t o;
      '(rs, t'') ← run step t' rest;
      Done (r :: rs, t'')
  end.

Definition hash_session (ops : list op) : result (list observation) :=
  o ← H.SymTable_new true true;
  t ← assert_nonnull o;
  '(rs, _) ← run hash_step t ops;
  Done rs.

Definition list_session (ops : list op) : result (list observation) :=
  o ← L.SymTable_new true;
  t ← assert_nonnull o;
  '(rs, _) ← run list_step t ops;
  Done rs.

(** The table a session leaves, or the empty one when a call did not
    return. *)
Definition hash_table_after (ops : list op) : H.SymTable :=
  match (o ← H.SymTable_new true true;
         t ← assert_nonnull o;
         run hash_step t ops) with
  | Done (_, t) => t
  | _ => {| H.buckets := []; H.length := 0; H.numBuckets := 0 |}
  end.

Definition list_table_after (ops : list op) : L.SymTable :=
  match (o ← L.SymTable_new true;
         t ← assert_nonnull o;
         run list_step t ops) with
  | Done (_, t) => t
  | _ => {| L.firstBinding := []; L.length := 0 |}
  end.
End Sessions.

(** Two observations agree when they are equal or, for map, when the calls
    are the same up to their order. *)
Definition same_observation (o1 o2 : observation) : Prop :=
  match o1, o2 with
  | Calls l1, Calls l2 => l1 ≡ₚ l2
  | _, _ => o1 = o2
  end.

Definition same_outcome {A : Type} (R : A → A → Prop) (r1 r2 : result A)
  : Prop :=
  match r1, r2 with
  | Done a, Done b => R a b
  | Abort, Abort => True
  | Undefined, Undefined => True
  | _, _ => False
  end.

(** The relation between the two implementations: the list and the hash
    table hold the same bindings and the same [length]. *)
Definition sim {P : Platform} (lt : L.SymTable) (ht : H.SymTable) : Prop :=
  L.length lt = H.length ht
  ∧ shape ht
  ∧ L.firstBinding lt ≡ₚ bindings ht.

(** One call in both: the same observation, and related tables after it. *)
Definition step_agrees {P : Platform}
    (rh : result (observation * H.SymTable))
    (rl : result (observation * L.SymTable)) : Prop :=
  match rh, rl with
  | Done (oh, ht'), Done (ol, lt') => same_observation oh ol ∧ sim lt' ht'
  | Abort, Abort => True
  | _, _ => False
  end.

(** ** Concrete keys and tables *)

(** The [n]-th of the keys "aaa", "aab", ..., "aaz", "aba", ... *)
Definition key_of (n : nat) : string :=
  String (ascii_of_nat (97 + n / 676))
    (String (ascii_of_nat (97 + (n / 26) mod 26))
       (String (ascii_of_nat (97 + n mod 26)) EmptyString)).

(** Puts of the first [n] keys, the [i]-th bound to the address [1000 + i]. *)
Definition put_keys (n : nat) : list string := key_of <$> seq 0 n.

Definition puts (n : nat) : list op :=
  (λ i, Put all_ok (Some (key_of i)) (1000 + Z.of_nat i)) <$> seq 0 n.

(** Puts of the given keys and values, in order, every allocation
    succeeding; and the bindings they ask for. *)
Definition puts_of (kvs : list (string * ptr)) : list op :=
  (λ kv, Put all_ok (Some kv.1) kv.2) <$> kvs.

Definition bindings_of (kvs : list (string * ptr)) : list Binding :=
  (λ kv, {| key := kv.1; value := kv.2 |}) <$> kvs.

(** The tables after these puts, on a platform with a 64-bit [size_t]. *)
Definition demo_table (n : nat) : H.SymTable :=
  hash_table_after (P := lp64_unsigned) (puts n).

Definition demo_list (n : nat) : L.SymTable :=
  list_table_after (P := lp64_unsigned) (puts n).

(** The position of the first occurrence of [k] in [l]. *)
Definition position_of (k : string) (l : list string) : option nat :=
  fst <$> list_find (λ x, x = k) l.

(** [a] occurs in [l], and so does [b], later. *)
Definition earlier (a b : string) (l : list string) : Prop :=
  match position_of a l, position_of b l with
  | Some i, Some j => (i < j)%nat
  | _, _ => False
  end.

(** The order of traversal as "most recently inserted first within a bucket":
    of two keys of one bucket, the one put later is passed first. *)
Definition newest_first {P : Platform} (put_order : list string)
    (numBuckets : Z) (calls : list (string * ptr * ptr)) : Prop :=
  ∀ a b, hash_index a numBuckets = hash_index b numBuckets →
         earlier a b put_order →
         earlier b a ((λ c, c.1.1) <$> calls).

(** ** The invariants can be computed *)

Section Decide.
Context {P : Platform}.

#[export] Instance chains_hashed_dec n i bs : Decision (chains_hashed n i bs).
Proof.
  revert i. induction bs as [|chain bs IH]; intros i; simpl; apply _.
Defined.

#[export] Instance shape_dec t : Decision (shape t).
Proof. unfold shape. apply _. Defined.

#[export] Instance counted_dec t : Decision (counted t).
Proof. unfold counted. apply _. Defined.

#[export] Instance list_shape_dec t : Decision (list_shape t).
Proof. unfold list_shape. apply _. Defined.

#[export] Instance list_counted_dec t : Decision (list_counted t).
Proof. unfold list_counted. apply _. Defined.
End Decide.

#[export] Instance earlier_dec a b l : Decision (earlier a b l).
Proof. unfold earlier. destruct (position_of a l), (position_of b l); apply _. Defined.

(** Evaluates a decidable proposition. *)
Ltac by_evaluation := apply (bool_decide_unpack _); vm_compute; exact I.

(** * Properties *)

Section MachineFacts.
Context {P : Platform}.

Lemma size_modulus_pos : 0 < 2 ^ size_bits.
Proof. pose proof size_bits_min. apply Z.pow_pos_nonneg; lia. Qed.

Lemma size_wrap_range z : 0 <= size_wrap z < 2 ^ size_bits.
Proof. apply Z.mod_pos_bound, size_modulus_pos. Qed.

Lemma size_wrap_small z : 0 <= z < 2 ^ size_bits → size_wrap z = z.
Proof. apply Z.mod_small. Qed.
End MachineFacts.

(** ** The hash function *)

Section HashFunction.
Context {P : Platform}.

Lemma size_modulus_nonzero : 2 ^ size_bits ≠ 0.
Proof. pose proof size_modulus_pos. lia. Qed.

(** One iteration, wrap-around included, is one step of Horner's rule modulo
    [2^size_bits]. *)
Lemma wrapped_step (h c : Z) :
  size_add (size_mul h H.HASH_MULTIPLIER) (size_wrap c) mod 2 ^ size_bits
  = (h * 65599 + c) mod 2 ^ size_bits.
Proof.
  pose proof size_modulus_nonzero as HM.
  unfold size_add, size_mul, H.HASH_MULTIPLIER, size_wrap.
  rewrite Z.mod_mod by done.
  rewrite <- Z.add_mod by done.
  rewrite <- Z.add_mod_idemp_l by done.
  rewrite Z.mul_mod_idemp_r by done.
  by rewrite Z.add_mod_idemp_l.
Qed.

Lemma mod_eq_horner (a a' x p : Z) :
  a mod 2 ^ size_bits = a' mod 2 ^ size_bits →
  (a * x + p) mod 2 ^ size_bits = (a' * x + p) mod 2 ^ size_bits.
Proof.
  pose proof size_modulus_nonzero as HM. intros Ha.
  rewrite <- (Z.add_mod_idemp_l (a * x)), <- (Z.add_mod_idemp_l (a' * x))
    by done.
  rewrite <- (Z.mul_mod_idemp_l a), <- (Z.mul_mod_idemp_l a') by done.
  by rewrite Ha.
Qed.

(** The accumulator of the loop is the polynomial, modulo [2^size_bits]. *)
Lemma hash_loop_polynomial (k : string) (h : Z) :
  H.hash_loop k h mod 2 ^ size_bits
  = (h * 65599 ^ Z.of_nat (length (list_ascii_of_string k))
     + polynomial (char_value <$> list_ascii_of_string k)) mod 2 ^ size_bits.
Proof.
  revert h. induction k as [|c k IH]; intros h; simpl.
  - f_equal. lia.
  - rewrite IH. unfold size_of_char.
    rewrite (mod_eq_horner _ _ _ _ (wrapped_step h (char_value c))).
    rewrite Nat2Z.inj_succ, Z.pow_succ_r by lia.
    change (list_fmap ascii Z char_value) with (fmap (M := list) char_value).
    rewrite length_fmap. f_equal. ring.
Qed.

Lemma hash_loop_range (k : string) (h : Z) :
  0 <= h < 2 ^ size_bits → 0 <= H.hash_loop k h < 2 ^ size_bits.
Proof.
  revert h. induction k as [|c k IH]; intros h Hh; simpl; [done|].
  apply IH, size_wrap_range.
Qed.

Lemma hash_loop_0 (k : string) :
  H.hash_loop k 0
  = polynomial (char_value <$> list_ascii_of_string k) mod 2 ^ size_bits.
Proof.
  pose proof size_modulus_pos.
  rewrite <- (Z.mod_small (H.hash_loop k 0) (2 ^ size_bits))
    by (apply hash_loop_range; lia).
  by rewrite hash_loop_polynomial.
Qed.

Lemma SymTable_hash_Some (k : string) (n : Z) :
  n ≠ 0 → H.SymTable_hash (Some k) n = Done (hash_index k n).
Proof.
  intros Hn. unfold H.SymTable_hash, hash_index. simpl.
  by destruct (Z.eqb_spec n 0).
Qed.

Lemma hash_index_range (k : string) (n : Z) :
  0 < n → 0 <= hash_index k n < n.
Proof. intros. apply Z.mod_pos_bound. done. Qed.

End HashFunction.

Lemma char_value_as_read {P : Platform} (c : ascii) :
  char_value c = value_read char_is_signed c.
Proof.
  unfold char_value, value_read, byte_value.
  by destruct char_is_signed, (128 <=? Z.of_N (N_of_ascii c)).
Qed.

(** Claim C7, as the code has it. For every non-null key and every positive
    bucket count, [SymTable_hash] returns the polynomial with multiplier 65599
    over the key's bytes as the platform reads them, left to right, taken
    modulo [2^size_bits] and then modulo the bucket count; the result is in
    [0, uBucketCount).  A byte is read as its value, except that a byte of 128
    or more is read as the byte minus 256 where plain [char] is signed: where
    [char] is unsigned, and for keys of bytes below 128, the result is the
    rolling hash over the byte values. *)
Theorem hash_is_rolling_polynomial {P : Platform} (k : string) (n : Z) :
  0 < n →
  H.SymTable_hash (Some k) n = Done (rolling_hash_as_read k n)
  ∧ 0 <= rolling_hash_as_read k n < n
  ∧ (char_is_signed = false
     ∨ Forall (λ c, byte_value c < 128) (list_ascii_of_string k) →
     H.SymTable_hash (Some k) n = Done (rolling_hash k n)).
Proof.
  intros Hn.
  assert (H.SymTable_hash (Some k) n = Done (rolling_hash_as_read k n)) as Hcode.
  { rewrite SymTable_hash_Some by lia.
    unfold hash_index, rolling_hash_as_read. rewrite hash_loop_0.
    do 4 f_equal. apply list_fmap_ext. intros _ c _. apply char_value_as_read. }
  split; [exact Hcode|]. split.
  - by apply Z.mod_pos_bound.
  - intros Hbytes. rewrite Hcode. unfold rolling_hash_as_read, rolling_hash.
    do 4 f_equal. apply list_fmap_ext. intros i c Hc. unfold value_read.
    destruct Hbytes as [->|Hascii]; [done|].
    assert (byte_value c < 128) as Hlt.
    { apply (proj1 (Forall_lookup _ _) Hascii i c Hc). }
    destruct char_is_signed; [|done].
    by destruct (Z.leb_spec 128 (byte_value c)); [lia|].
Qed.

Lemma hash_is_rolling_polynomial_witness :
  H.SymTable_hash (P := lp64_signed) (Some (String "200"%char "")) 509
  = Done (rolling_hash_as_read (P := lp64_signed) (String "200"%char "") 509)
  ∧ 0 <= rolling_hash_as_read (P := lp64_signed) (String "200"%char "") 509
    < 509
  ∧ (char_is_signed (Platform := lp64_signed) = false
     ∨ Forall (λ c, byte_value c < 128)
         (list_ascii_of_string (String "200"%char "")) →
     H.SymTable_hash (P := lp64_signed) (Some (String "200"%char "")) 509
     = Done (rolling_hash (P := lp64_signed) (String "200"%char "") 509)).
Proof.
  apply (hash_is_rolling_polynomial (P := lp64_signed)
           (String "200"%char "") 509).
  lia.
Defined.

(** Claim C7, as stated, fails where plain [char] is signed: for the one-byte
    key 0xC8 (200) and 509 buckets the code returns 246, the hash of
    200 - 256 wrapped to 64 bits, while the rolling hash over the byte value
    is 200. *)
Lemma hash_is_not_over_byte_values :
  H.SymTable_hash (P := lp64_signed) (Some (String "200"%char "")) 509
  = Done 246
  ∧ rolling_hash (P := lp64_signed) (String "200"%char "") 509 = 200
  ∧ H.SymTable_hash (P := lp64_signed) (Some (String "200"%char "")) 509
    ≠ Done (rolling_hash (P := lp64_signed) (String "200"%char "") 509).
Proof. vm_compute. split_and!; [reflexivity|reflexivity|discriminate]. Qed.

(** The hash of "key" is 3 for 509 buckets; a character above 127 counts as
    negative where [char] is signed. *)
Example hash_key_509 :
  H.SymTable_hash (P := lp64_unsigned) (Some "key"%string) 509 = Done 3.
Proof. vm_compute. reflexivity. Qed.

Example hash_high_char :
  H.SymTable_hash (P := lp64_unsigned) (Some (String "200"%char "")) 509
  = Done 200
  ∧ H.SymTable_hash (P := lp64_signed) (Some (String "200"%char "")) 509
    = Done 246.
Proof. vm_compute. split; reflexivity. Qed.

(** ** Chains *)

Section Chains.

Lemma string_compare_refl (s : string) : String.compare s s = Eq.
Proof.
  induction s as [|c s IH]; simpl; [done|].
  unfold Ascii.compare. by rewrite N.compare_refl.
Qed.

Lemma strcmp_zero (a b : string) : (strcmp a b =? 0) = bool_decide (a = b).
Proof.
  unfold strcmp. case_bool_decide as Hab.
  - subst. by rewrite string_compare_refl.
  - destruct (String.compare a b) eqn:Hc; [|done..].
    by apply String.compare_eq_iff in Hc.
Qed.

Lemma chain_find_cons (k : string) (b : Binding) (chain : list Binding) :
  chain_find k (b :: chain)
  = if decide (k = key b) then Some b else chain_find k chain.
Proof. simpl. rewrite strcmp_zero. by case_bool_decide; case_decide. Qed.

Lemma chain_find_Some (k : string) (chain : list Binding) (b : Binding) :
  chain_find k chain = Some b → b ∈ chain ∧ key b = k.
Proof.
  induction chain as [|c chain IH]; [done|].
  rewrite chain_find_cons. case_decide as Hk.
  - intros [= ->]. split; [left|done].
  - intros Hf. destruct (IH Hf). split; [by right|done].
Qed.

Lemma chain_find_None (k : string) (chain : list Binding) :
  chain_find k chain = None ↔ k ∉ key <$> chain.
Proof.
  induction chain as [|c chain IH].
  - split; [|done]. intros _ Hin. by apply elem_of_nil in Hin.
  - rewrite chain_find_cons, fmap_cons, not_elem_of_cons.
    case_decide; [|tauto]. split; [done|]. by intros [].
Qed.

Lemma chain_find_app (k : string) (l1 l2 : list Binding) :
  chain_find k (l1 ++ l2)
  = match chain_find k l1 with
    | Some b => Some b
    | None => chain_find k l2
    end.
Proof.
  induction l1 as [|c l1 IH]; [done|].
  rewrite <- app_comm_cons, !chain_find_cons. by case_decide.
Qed.

Lemma chain_find_NoDup (chain : list Binding) (b : Binding) :
  NoDup (key <$> chain) → b ∈ chain → chain_find (key b) chain = Some b.
Proof.
  induction chain as [|c chain IH]; intros Hnd Hin.
  - by apply elem_of_nil in Hin.
  - rewrite fmap_cons in Hnd. apply NoDup_cons in Hnd as [Hc Hnd].
    rewrite chain_find_cons. apply elem_of_cons in Hin as [->|Hin].
    + by rewrite decide_True.
    + rewrite decide_False; [by apply IH|].
      intros Heq. apply Hc. rewrite <- Heq. by apply list_elem_of_fmap_2.
Qed.

Lemma chain_find_perm (k : string) (l1 l2 : list Binding) :
  NoDup (key <$> l1) → l1 ≡ₚ l2 → chain_find k l1 = chain_find k l2.
Proof.
  intros Hnd Hp.
  destruct (chain_find k l1) as [b|] eqn:Hf.
  - apply chain_find_Some in Hf as [Hin <-]. symmetry.
    apply chain_find_NoDup; [by rewrite <- Hp|by rewrite <- Hp].
  - symmetry. apply chain_find_None. rewrite <- Hp.
    by apply chain_find_None.
Qed.

(** Removal unlinks the first node with the key, wherever it is. *)
Lemma chain_remove_Some (k : string) (chain chain' : list Binding) (v : ptr) :
  chain_remove k chain = Some (v, chain') →
  ∃ pre b post, chain = pre ++ b :: post ∧ key b = k ∧ (k ∉ key <$> pre)
                ∧ v = value b ∧ chain' = pre ++ post.
Proof.
  revert chain'. induction chain as [|c chain IH]; intros chain'; [done|].
  simpl. rewrite strcmp_zero. case_bool_decide as Hk.
  - intros [= <- <-]. exists [], c, chain.
    split_and!; try done. apply not_elem_of_nil.
  - destruct (chain_remove k chain) as [[v' next']|]; [|done].
    intros [= <- <-].
    destruct (IH _ eq_refl) as (pre & b & post & -> & ? & ? & ? & ->).
    exists (c :: pre), b, post. split_and!; try done.
    rewrite fmap_cons, not_elem_of_cons. done.
Qed.

Lemma chain_remove_None (k : string) (chain : list Binding) :
  chain_remove k chain = None ↔ chain_find k chain = None.
Proof.
  induction chain as [|c chain IH]; [done|].
  simpl. rewrite strcmp_zero. case_bool_decide; [done|].
  rewrite <- IH. by destruct (chain_remove k chain) as [[??]|].
Qed.

Lemma chain_replace_Some (k : string) (v old : ptr)
    (chain chain' : list Binding) :
  chain_replace k v chain = Some (old, chain') →
  ∃ pre b post, chain = pre ++ b :: post ∧ key b = k ∧ (k ∉ key <$> pre)
                ∧ old = value b
                ∧ chain' = pre ++ {| key := k; value := v |} :: post.
Proof.
  revert chain'. induction chain as [|c chain IH]; intros chain'; [done|].
  simpl. rewrite strcmp_zero. case_bool_decide as Hk.
  - intros [= <- <-]. exists [], c, chain. subst k.
    split_and!; try done. apply not_elem_of_nil.
  - destruct (chain_replace k v chain) as [[v' next']|]; [|done].
    intros [= <- <-].
    destruct (IH _ eq_refl) as (pre & b & post & -> & ? & ? & ? & ->).
    exists (c :: pre), b, post. split_and!; try done.
    rewrite fmap_cons, not_elem_of_cons. done.
Qed.

Lemma chain_replace_None (k : string) (v : ptr) (chain : list Binding) :
  chain_replace k v chain = None ↔ chain_find k chain = None.
Proof.
  induction chain as [|c chain IH]; [done|].
  simpl. rewrite strcmp_zero. case_bool_decide; [done|].
  rewrite <- IH. by destruct (chain_replace k v chain) as [[??]|].
Qed.

(** A key that is found is found before any later node: the part of the
    chain before the first match does not matter. *)
Lemma chain_find_middle (k : string) (pre post : list Binding) (b : Binding) :
  key b = k → k ∉ (key <$> pre) → chain_find k (pre ++ b :: post) = Some b.
Proof.
  intros Hb Hpre. rewrite chain_find_app.
  apply chain_find_None in Hpre as ->.
  rewrite chain_find_cons. by rewrite decide_True.
Qed.

End Chains.

(** ** Arrays and loops *)

Section Loops.
Context {A S : Type}.

Lemma read_array_Done (arr : list A) (i : Z) (x : A) :
  read_array arr i = Done x ↔ 0 <= i ∧ arr !! Z.to_nat i = Some x.
Proof.
  unfold read_array. destruct (Z.ltb_spec i 0).
  - split; [done|]. lia.
  - destruct (arr !! Z.to_nat i); split; try done.
    + intros [= ->]. done.
    + by intros [_ [= ->]].
    + by intros [_ ?].
Qed.

Lemma read_array_lookup (arr : list A) (i : nat) (x : A) :
  arr !! i = Some x → read_array arr (Z.of_nat i) = Done x.
Proof. intros. apply read_array_Done. rewrite Nat2Z.id. split; [lia|done]. Qed.

Lemma write_array_Done (arr : list A) (i : Z) (x : A) :
  0 <= i < Z.of_nat (length arr) →
  write_array arr i x = Done (<[Z.to_nat i := x]> arr).
Proof.
  intros Hi. unfold write_array.
  destruct (Z.leb_spec 0 i); [|lia].
  destruct (Z.ltb_spec i (Z.of_nat (length arr))); [done|lia].
Qed.

Lemma for_chain_app (l1 l2 : list A) (g : A → S → result S) (s : S) :
  for_chain (l1 ++ l2) g s = s' ← for_chain l1 g s; for_chain l2 g s'.
Proof.
  revert s. induction l1 as [|x l1 IH]; intros s; simpl; [done|].
  destruct (g x s) as [s'| |]; simpl; [apply IH|done..].
Qed.

Lemma for_chain_pure (l : list A) (f : A → S → S) (s : S) :
  for_chain l (λ x s, Done (f x s)) s = Done (foldl (λ s x, f x s) s l).
Proof. revert s. induction l as [|x l IH]; intros s; simpl; [done|apply IH]. Qed.

(** The loop over the indices of an array is the loop over its elements. *)
Lemma for_loop_array (pre arr : list A) (g : A → S → result S) (s : S) :
  for_loop (length arr) (Z.of_nat (length pre))
    (λ i s, x ← read_array (pre ++ arr) i; g x s) s
  = for_chain arr g s.
Proof.
  revert pre s. induction arr as [|x arr IH]; intros pre s; simpl; [done|].
  rewrite (read_array_lookup _ _ x) by (by apply list_lookup_middle).
  simpl. destruct (g x s) as [s'| |]; simpl; [|done..].
  replace (Z.of_nat (length pre) + 1) with (Z.of_nat (length (pre ++ [x])))
    by (rewrite length_app; simpl; lia).
  replace (pre ++ x :: arr) with ((pre ++ [x]) ++ arr)
    by (by rewrite <- app_assoc).
  apply IH.
Qed.

Lemma for_loop_whole_array (arr : list A) (n : Z) (g : A → S → result S)
    (s : S) :
  Z.of_nat (length arr) = n →
  for_loop (Z.to_nat n) 0 (λ i s, x ← read_array arr i; g x s) s
  = for_chain arr g s.
Proof.
  intros <-. rewrite Nat2Z.id. apply (for_loop_array [] arr).
Qed.

End Loops.

Lemma for_chain_concat {A S : Type} (ls : list (list A))
    (g : A → S → result S) (s : S) :
  for_chain ls (λ l s, for_chain l g s) s = for_chain (concat ls) g s.
Proof.
  revert s. induction ls as [|l ls IH]; intros s; simpl; [done|].
  rewrite for_chain_app. destruct (for_chain l g s); simpl; [apply IH|done..].
Qed.

(** ** The bucket array *)

Section Buckets.
Context {P : Platform}.
Implicit Types (bs : list (list Binding)) (chain : list Binding)
  (b : Binding) (k : string) (n : Z).

Lemma chains_hashed_lookup n (i : Z) bs :
  chains_hashed n i bs
  ↔ ∀ (j : nat) chain b, bs !! j = Some chain → b ∈ chain →
                         hash_index (key b) n = i + Z.of_nat j.
Proof.
  revert i. induction bs as [|c bs IH]; intros i; simpl.
  - split; [|done]. intros _ j chain b Hj. done.
  - rewrite IH, Forall_forall. split.
    + intros [Hc Hbs] [|j] chain b Hj Hb; simpl in Hj.
      * injection Hj as <-. rewrite (Hc b Hb). lia.
      * rewrite (Hbs j chain b Hj Hb). lia.
    + intros Hall. split.
      * intros b Hb. rewrite (Hall 0%nat c b eq_refl Hb). lia.
      * intros j chain b Hj Hb. rewrite (Hall (S j) chain b Hj Hb). lia.
Qed.

Lemma chains_hashed_insert n bs (j : nat) chain :
  chains_hashed n 0 bs →
  (∀ b, b ∈ chain → hash_index (key b) n = Z.of_nat j) →
  chains_hashed n 0 (<[j := chain]> bs).
Proof.
  rewrite !chains_hashed_lookup. intros Hbs Hchain j' chain' b Hj' Hb.
  apply list_lookup_insert_Some in Hj' as [(<- & <- & _)|[_ Hj']].
  - rewrite (Hchain b Hb). lia.
  - by apply (Hbs j' chain' b).
Qed.

Lemma chains_hashed_calloc n (m : Z) : chains_hashed n 0 (H.calloc_array m).
Proof.
  apply chains_hashed_lookup. intros j chain b Hj Hb.
  apply lookup_replicate in Hj as [-> _]. by apply elem_of_nil in Hb.
Qed.

Lemma elem_of_concat {A : Type} (x : A) (ls : list (list A)) :
  x ∈ concat ls ↔ ∃ (j : nat) (l : list A), ls !! j = Some l ∧ x ∈ l.
Proof.
  rewrite list_elem_of_In, in_concat. split.
  - intros (l & Hl & Hx). apply list_elem_of_In, list_elem_of_lookup in Hl.
    destruct Hl as [j Hj]. exists j, l. by rewrite list_elem_of_In.
  - intros (j & l & Hj & Hx). exists l.
    rewrite <- !list_elem_of_In. split; [|done].
    by apply list_elem_of_lookup_2 in Hj.
Qed.

(** The array split around the chain of one bucket. *)
Lemma concat_split {A : Type} (ls : list (list A)) (j : nat) (l : list A) :
  ls !! j = Some l →
  concat ls = concat (take j ls) ++ l ++ concat (drop (S j) ls).
Proof.
  intros Hj. rewrite <- (take_drop_middle ls j l Hj) at 1.
  by rewrite concat_app.
Qed.

Lemma concat_insert_split {A : Type} (ls : list (list A)) (j : nat)
    (l l' : list A) :
  ls !! j = Some l →
  concat (<[j := l']> ls) = concat (take j ls) ++ l' ++ concat (drop (S j) ls).
Proof.
  intros Hj. rewrite insert_take_drop by (by eapply lookup_lt_Some).
  by rewrite concat_app.
Qed.

Lemma concat_calloc (m : Z) : concat (H.calloc_array m) = [].
Proof.
  unfold H.calloc_array. induction (Z.to_nat m) as [|m' IH]; [done|].
  simpl. apply IH.
Qed.

(** A key is only ever in the chain of its hash. *)
Lemma chain_find_other_buckets n bs (j : nat) k :
  chains_hashed n 0 bs →
  hash_index k n = Z.of_nat j →
  chain_find k (concat (take j bs)) = None
  ∧ chain_find k (concat (drop (S j) bs)) = None.
Proof.
  rewrite chains_hashed_lookup. intros Hbs Hk. split.
  - apply chain_find_None. intros Hin.
    apply list_elem_of_fmap in Hin as (b & -> & Hb).
    apply elem_of_concat in Hb as (j' & chain & Hj' & Hb).
    apply lookup_take_Some in Hj' as [Hj' Hlt].
    specialize (Hbs j' chain b Hj' Hb). lia.
  - apply chain_find_None. intros Hin.
    apply list_elem_of_fmap in Hin as (b & -> & Hb).
    apply elem_of_concat in Hb as (j' & chain & Hj' & Hb).
    rewrite lookup_drop in Hj'.
    specialize (Hbs _ chain b Hj' Hb). lia.
Qed.

Lemma chain_find_bucket n bs (j : nat) k chain :
  chains_hashed n 0 bs →
  hash_index k n = Z.of_nat j →
  bs !! j = Some chain →
  chain_find k (concat bs) = chain_find k chain.
Proof.
  intros Hbs Hk Hj.
  destruct (chain_find_other_buckets n bs j k Hbs Hk) as [Hpre Hpost].
  rewrite (concat_split bs j chain Hj), !chain_find_app, Hpre, Hpost.
  by destruct (chain_find k chain).
Qed.

(** Pushing a binding at the head of a chain. *)
Lemma concat_push bs (j : nat) chain b :
  bs !! j = Some chain →
  concat (<[j := b :: chain]> bs) ≡ₚ b :: concat bs.
Proof.
  intros Hj.
  rewrite (concat_insert_split bs j chain _ Hj), (concat_split bs j chain Hj).
  rewrite <- app_comm_cons. symmetry. apply Permutation_middle.
Qed.

End Buckets.

(** ** The expansion *)

Section Expansion.
Context {P : Platform}.
Implicit Types (bs : list (list Binding)) (chain : list Binding)
  (b : Binding) (k : string) (n : Z) (t : H.SymTable).

Lemma chains_hashed_elem n bs (j : nat) chain b :
  chains_hashed n 0 bs → bs !! j = Some chain → b ∈ chain →
  hash_index (key b) n = Z.of_nat j.
Proof.
  intros Hbs Hj Hb.
  by rewrite (proj1 (chains_hashed_lookup n 0 bs) Hbs j chain b Hj Hb).
Qed.

Lemma prime_bounds n : n ∈ H.primeBuckCounts → 509 <= n <= 65521.
Proof.
  unfold H.primeBuckCounts. rewrite !elem_of_cons, elem_of_nil. lia.
Qed.

(** The chain a key belongs to. *)
Lemma bucket_of n bs k :
  0 < n → Z.of_nat (length bs) = n →
  ∃ (j : nat) chain,
    hash_index k n = Z.of_nat j
    ∧ bs !! j = Some chain
    ∧ H.SymTable_hash (Some k) n = Done (Z.of_nat j)
    ∧ read_array bs (Z.of_nat j) = Done chain.
Proof.
  intros Hn Hlen. pose proof (hash_index_range k n Hn) as Hr.
  destruct (lookup_lt_is_Some_2 bs (Z.to_nat (hash_index k n)))
    as [chain Hchain]; [lia|].
  exists (Z.to_nat (hash_index k n)), chain.
  rewrite Z2Nat.id by lia. split_and!; [done|done| |].
  - apply SymTable_hash_Some. lia.
  - apply read_array_Done. split; [lia|done].
Qed.

Lemma rehash_chain_spec n chain bs :
  0 < n → Z.of_nat (length bs) = n →
  ∃ bs', H.rehash_chain n chain bs = Done bs'
         ∧ length bs' = length bs
         ∧ concat bs' ≡ₚ chain ++ concat bs
         ∧ (chains_hashed n 0 bs → chains_hashed n 0 bs').
Proof.
  intros Hn. revert bs. induction chain as [|b chain IH]; intros bs Hlen.
  - exists bs. by split_and!.
  - destruct (bucket_of n bs (key b) Hn Hlen)
      as (j & head & Hj & Hhead & Hhash & Hread).
    pose proof (lookup_lt_Some _ _ _ Hhead) as Hlt.
    unfold H.rehash_chain. simpl. rewrite Hhash. simpl. rewrite Hread. simpl.
    rewrite write_array_Done by lia. simpl. rewrite Nat2Z.id.
    destruct (IH (<[j := b :: head]> bs)) as (bs' & Hrun & Hl & Hperm & Hh).
    { by rewrite length_insert. }
    exists bs'. split_and!.
    + exact Hrun.
    + by rewrite Hl, length_insert.
    + rewrite Hperm, (concat_push bs j head b Hhead).
      symmetry. apply Permutation_middle.
    + intros Hbs. apply Hh, chains_hashed_insert; [done|].
      intros b' [->|Hb']%elem_of_cons; [done|].
      by rewrite (chains_hashed_elem n bs j head b' Hbs Hhead Hb').
Qed.

Lemma rehash_all_spec n (old : list (list Binding)) bs :
  0 < n → Z.of_nat (length bs) = n →
  ∃ bs', for_chain old (λ chain bs, H.rehash_chain n chain bs) bs = Done bs'
         ∧ length bs' = length bs
         ∧ concat bs' ≡ₚ concat old ++ concat bs
         ∧ (chains_hashed n 0 bs → chains_hashed n 0 bs').
Proof.
  intros Hn. revert bs. induction old as [|chain old IH]; intros bs Hlen.
  - exists bs. by split_and!.
  - destruct (rehash_chain_spec n chain bs Hn Hlen)
      as (bs1 & Hrun1 & Hl1 & Hperm1 & Hh1).
    destruct (IH bs1) as (bs' & Hrun & Hl & Hperm & Hh); [lia|].
    exists bs'. simpl. rewrite Hrun1. simpl. split_and!.
    + exact Hrun.
    + by rewrite Hl.
    + rewrite Hperm, Hperm1, <- !app_assoc.
      apply Permutation_app_swap_app.
    + auto.
Qed.

Local Ltac prime_case i :=
  exists i; split_and!; try reflexivity; try lia;
  intros Hne; try done; eexists; split_and!; try reflexivity; try lia;
  unfold H.primeBuckCounts; rewrite !elem_of_cons; tauto.

(** The search for the current bucket count ends inside the array, and
    below the last element the next one exists. *)
Lemma find_index_primes n :
  n ∈ H.primeBuckCounts →
  ∃ i : nat, H.find_index H.primeBuckCounts 0 n = Done (Z.of_nat i)
             ∧ H.primeBuckCounts !! i = Some n
             ∧ (i < 8)%nat
             ∧ (n ≠ 65521 →
                ∃ n', read_array H.primeBuckCounts (Z.of_nat i + 1) = Done n'
                      ∧ H.primeBuckCounts !! S i = Some n'
                      ∧ n' ∈ H.primeBuckCounts
                      ∧ n < n').
Proof.
  unfold H.primeBuckCounts at 1. rewrite !elem_of_cons, elem_of_nil.
  intros [->|[->|[->|[->|[->|[->|[->|[->|[]]]]]]]]];
    [prime_case 0%nat | prime_case 1%nat | prime_case 2%nat
    | prime_case 3%nat | prime_case 4%nat | prime_case 5%nat
    | prime_case 6%nat | prime_case 7%nat].
Qed.
End Expansion.

(** ** The functions of the hash table on a well-formed table *)

Section HashTable.
Context {P : Platform}.
Implicit Types (bs : list (list Binding)) (chain : list Binding)
  (b : Binding) (k : string) (n : Z) (t : H.SymTable) (v : ptr).

Lemma shape_positive t : shape t → 0 < H.numBuckets t.
Proof. intros (Hn & _). apply prime_bounds in Hn. lia. Qed.

Lemma SymTable_expand_spec t :
  H.numBuckets t ∈ H.primeBuckCounts →
  H.numBuckets t ≠ 65521 →
  Z.of_nat (length (H.buckets t)) = H.numBuckets t →
  ∃ t', H.SymTable_expand true t = Done t'
        ∧ next_prime (H.numBuckets t) (H.numBuckets t')
        ∧ H.numBuckets t' ∈ H.primeBuckCounts
        ∧ H.numBuckets t < H.numBuckets t'
        ∧ H.length t' = H.length t
        ∧ Z.of_nat (length (H.buckets t')) = H.numBuckets t'
        ∧ chains_hashed (H.numBuckets t') 0 (H.buckets t')
        ∧ bindings t' ≡ₚ bindings t.
Proof.
  intros Hn Hmax Hlen.
  destruct (find_index_primes _ Hn) as (i & Hfind & Hi & _ & Hnext).
  destruct (Hnext Hmax) as (n' & Hread & Hi' & Hn' & Hlt).
  pose proof (prime_bounds _ Hn') as Hb.
  destruct (rehash_all_spec n' (H.buckets t) (H.calloc_array n'))
    as (bs' & Hrun & Hl & Hperm & Hh); [lia| |].
  { unfold H.calloc_array. rewrite length_replicate. lia. }
  unfold H.SymTable_expand. rewrite Hfind. simpl. rewrite Hread. simpl.
  rewrite (for_loop_whole_array (H.buckets t) _
             (λ chain bs, H.rehash_chain n' chain bs)) by done.
  rewrite Hrun. simpl. eexists. split; [reflexivity|]. simpl.
  split_and!; try done.
  - by exists i.
  - rewrite Hl. unfold H.calloc_array. rewrite length_replicate. lia.
  - apply Hh, chains_hashed_calloc.
  - unfold bindings. simpl. by rewrite Hperm, concat_calloc, app_nil_r.
Qed.

Lemma SymTable_expand_no_memory t :
  H.numBuckets t ∈ H.primeBuckCounts →
  H.numBuckets t ≠ 65521 →
  H.SymTable_expand false t = Done t.
Proof.
  intros Hn Hmax.
  destruct (find_index_primes _ Hn) as (i & Hfind & Hi & _ & Hnext).
  destruct (Hnext Hmax) as (n' & Hread & _).
  unfold H.SymTable_expand. rewrite Hfind. simpl. by rewrite Hread.
Qed.

Lemma shape_expand t t' :
  shape t → H.SymTable_expand true t = Done t' →
  H.numBuckets t ≠ 65521 → shape t'.
Proof.
  intros (Hn & Hlen & Hh & Hnd) Hrun Hmax.
  destruct (SymTable_expand_spec t Hn Hmax Hlen)
    as (t'' & Hrun' & _ & ? & _ & _ & ? & ? & Hperm).
  rewrite Hrun in Hrun'. injection Hrun' as <-.
  split_and!; try done. by rewrite Hperm.
Qed.

Lemma grow_if_needed_spec (c : bool) t :
  shape t →
  ∃ t', H.grow_if_needed c t = Done t'
        ∧ shape t'
        ∧ H.length t' = H.length t
        ∧ bindings t' ≡ₚ bindings t
        ∧ (if grows c t
           then H.SymTable_expand true t = Done t'
                ∧ next_prime (H.numBuckets t) (H.numBuckets t')
           else t' = t).
Proof.
  intros Hs. pose proof Hs as (Hn & Hlen & Hh & Hnd).
  pose proof (prime_bounds _ Hn) as Hb.
  unfold H.grow_if_needed, grows.
  destruct (Z.gtb_spec (H.length t) (H.numBuckets t)); simpl;
    [|by exists t].
  destruct (Z.ltb_spec (H.numBuckets t) 65521),
           (Z.eqb_spec (H.numBuckets t) 65521); try lia; simpl;
    [|by exists t].
  destruct c.
  - destruct (SymTable_expand_spec t Hn n Hlen)
      as (t' & Hrun & Hnext & ? & _ & ? & ? & ? & Hperm).
    exists t'. split_and!; try done.
    by eapply shape_expand.
  - exists t. by rewrite SymTable_expand_no_memory.
Qed.

(** Get, contains: the chain of the key's bucket answers for the table. *)
Lemma bucket_of_table t k :
  shape t →
  ∃ (j : nat) chain,
    hash_index k (H.numBuckets t) = Z.of_nat j
    ∧ H.buckets t !! j = Some chain
    ∧ H.SymTable_hash (Some k) (H.numBuckets t) = Done (Z.of_nat j)
    ∧ read_array (H.buckets t) (Z.of_nat j) = Done chain
    ∧ chain_find k chain = chain_find k (bindings t).
Proof.
  intros Hs. pose proof Hs as (Hn & Hlen & Hh & Hnd).
  destruct (bucket_of (H.numBuckets t) (H.buckets t) k)
    as (j & chain & Hj & Hchain & Hhash & Hread);
    [by apply shape_positive|done|].
  exists j, chain. split_and!; try done.
  symmetry. by eapply chain_find_bucket.
Qed.

Lemma SymTable_get_spec t k :
  shape t →
  H.SymTable_get (Some t) (Some k)
  = Done (match chain_find k (bindings t) with
          | Some b => value b
          | None => NULL
          end).
Proof.
  intros Hs.
  destruct (bucket_of_table t k Hs) as (j & chain & _ & _ & Hh & Hr & Hf).
  unfold H.SymTable_get. simpl. rewrite Hh. simpl. rewrite Hr. simpl.
  rewrite Hf. by destruct (chain_find k (bindings t)).
Qed.

Lemma SymTable_contains_spec t k :
  shape t →
  H.SymTable_contains (Some t) (Some k)
  = Done (match chain_find k (bindings t) with Some _ => 1 | None => 0 end).
Proof.
  intros Hs.
  destruct (bucket_of_table t k Hs) as (j & chain & _ & _ & Hh & Hr & Hf).
  unfold H.SymTable_contains. simpl. rewrite Hh. simpl. rewrite Hr. simpl.
  rewrite Hf. by destruct (chain_find k (bindings t)).
Qed.

Lemma SymTable_contains_1 t k :
  shape t →
  H.SymTable_contains (Some t) (Some k) = Done 1
  ↔ is_Some (chain_find k (bindings t)).
Proof.
  intros Hs. rewrite SymTable_contains_spec by done.
  destruct (chain_find k (bindings t)); split; try done.
Qed.

(** Two well-formed tables with the same bindings answer alike. *)
Lemma SymTable_get_perm t t' k :
  shape t → shape t' → bindings t ≡ₚ bindings t' →
  H.SymTable_get (Some t') (Some k) = H.SymTable_get (Some t) (Some k).
Proof.
  intros Hs Hs' Hperm. rewrite !SymTable_get_spec by done.
  rewrite (chain_find_perm k _ _ (proj2 (proj2 (proj2 Hs))) Hperm). done.
Qed.

Lemma SymTable_contains_perm t t' k :
  shape t → shape t' → bindings t ≡ₚ bindings t' →
  H.SymTable_contains (Some t') (Some k)
  = H.SymTable_contains (Some t) (Some k).
Proof.
  intros Hs Hs' Hperm. rewrite !SymTable_contains_spec by done.
  rewrite (chain_find_perm k _ _ (proj2 (proj2 (proj2 Hs))) Hperm). done.
Qed.

End HashTable.

(** ** One binding among the others *)

Section OneBinding.
Implicit Types (front back : list Binding) (b : Binding) (k : string).

Lemma app_around {A : Type} (a pre post d : list A) (x : A) :
  a ++ (pre ++ x :: post) ++ d = (a ++ pre) ++ x :: (post ++ d).
Proof. by rewrite <- !app_assoc. Qed.

Lemma app_around_nil {A : Type} (a pre post d : list A) :
  a ++ (pre ++ post) ++ d = (a ++ pre) ++ (post ++ d).
Proof. by rewrite <- !app_assoc. Qed.

Lemma keys_middle front b back :
  key <$> (front ++ b :: back) ≡ₚ key b :: (key <$> (front ++ back)).
Proof.
  rewrite !fmap_app, fmap_cons. symmetry. apply Permutation_middle.
Qed.

Lemma NoDup_keys_without front b back :
  NoDup (key <$> (front ++ b :: back)) →
  (key b ∉ key <$> (front ++ back)) ∧ NoDup (key <$> (front ++ back)).
Proof. rewrite keys_middle. apply NoDup_cons. Qed.

Lemma chain_find_without front b back k :
  NoDup (key <$> (front ++ b :: back)) →
  chain_find k (front ++ back)
  = if decide (k = key b) then None
    else chain_find k (front ++ b :: back).
Proof.
  intros Hnd. destruct (NoDup_keys_without _ _ _ Hnd) as [Hb _].
  case_decide as Hk.
  - subst. by apply chain_find_None.
  - rewrite !chain_find_app, chain_find_cons. by rewrite decide_False.
Qed.

Lemma chain_find_with_value front b back k (v : ptr) :
  NoDup (key <$> (front ++ b :: back)) →
  chain_find k (front ++ {| key := key b; value := v |} :: back)
  = if decide (k = key b) then Some {| key := key b; value := v |}
    else chain_find k (front ++ b :: back).
Proof.
  intros Hnd. destruct (NoDup_keys_without _ _ _ Hnd) as [Hb _].
  rewrite !chain_find_app, !chain_find_cons. simpl.
  case_decide as Hk; [|done]. subst.
  assert (chain_find (key b) front = None) as ->; [|done].
  apply chain_find_None. intros Hin. apply Hb.
  rewrite fmap_app. apply elem_of_app. by left.
Qed.

Lemma keys_with_value front b back (v : ptr) :
  key <$> (front ++ {| key := key b; value := v |} :: back)
  = key <$> (front ++ b :: back).
Proof. by rewrite !fmap_app, !fmap_cons. Qed.

Lemma chain_find_in_middle front b back :
  NoDup (key <$> (front ++ b :: back)) →
  chain_find (key b) (front ++ b :: back) = Some b.
Proof.
  intros Hnd. apply chain_find_NoDup; [done|].
  apply elem_of_app. right. left.
Qed.
End OneBinding.

(** ** Put, replace and remove on a well-formed table *)

Section HashTableUpdates.
Context {P : Platform}.
Implicit Types (bs : list (list Binding)) (chain : list Binding)
  (b : Binding) (k : string) (n : Z) (t : H.SymTable) (v : ptr).

(** Writing a chain of bindings of bucket [j] into bucket [j]. *)
Lemma shape_set_chain t (j : nat) chain chain' (len : Z) :
  shape t →
  H.buckets t !! j = Some chain →
  (∀ b, b ∈ chain' → hash_index (key b) (H.numBuckets t) = Z.of_nat j) →
  NoDup (key <$> (concat (take j (H.buckets t)) ++ chain'
                  ++ concat (drop (S j) (H.buckets t)))) →
  shape {| H.buckets := <[j := chain']> (H.buckets t);
           H.length := len;
           H.numBuckets := H.numBuckets t |}.
Proof.
  intros (Hn & Hlen & Hh & Hnd) Hj Hc Hnd'.
  unfold shape, bindings. simpl. split_and!.
  - done.
  - by rewrite length_insert.
  - by apply chains_hashed_insert.
  - by rewrite (concat_insert_split _ _ chain).
Qed.

Lemma SymTable_put_spec (a : Alloc) t k v :
  shape t →
  ∃ t1 (j : nat) chain,
    H.grow_if_needed (calloc_buckets a) t = Done t1
    ∧ shape t1
    ∧ H.length t1 = H.length t
    ∧ bindings t1 ≡ₚ bindings t
    ∧ (if grows (calloc_buckets a) t
       then H.SymTable_expand true t = Done t1
            ∧ next_prime (H.numBuckets t) (H.numBuckets t1)
       else t1 = t)
    ∧ hash_index k (H.numBuckets t1) = Z.of_nat j
    ∧ H.buckets t1 !! j = Some chain
    ∧ H.SymTable_put a (Some t) (Some k) v
      = match chain_find k (bindings t) with
        | Some _ => Done (0, t1)
        | None =>
            if malloc_binding a && malloc_key a
            then Done (1, {| H.buckets :=
                               <[j := {| key := k; value := v |} :: chain]>
                                 (H.buckets t1);
                             H.length := size_add (H.length t) 1;
                             H.numBuckets := H.numBuckets t1 |})
            else Done (0, t1)
        end.
Proof.
  intros Hs.
  destruct (grow_if_needed_spec (calloc_buckets a) t Hs)
    as (t1 & Hgrow & Hs1 & Hlen1 & Hperm & Hcase).
  destruct (bucket_of_table t1 k Hs1) as (j & chain & Hj & Hc & Hh & Hr & Hf).
  exists t1, j, chain. split_and!; try done.
  unfold H.SymTable_put. simpl. rewrite Hgrow. simpl. rewrite Hh. simpl.
  rewrite Hr. simpl. rewrite Hf.
  rewrite (chain_find_perm k _ _ (proj2 (proj2 (proj2 Hs1))) Hperm).
  destruct (chain_find k (bindings t)); [done|].
  destruct (malloc_binding a); simpl; [|done].
  destruct (malloc_key a); simpl; [|done].
  pose proof (lookup_lt_Some _ _ _ Hc).
  rewrite write_array_Done by lia. simpl. by rewrite Nat2Z.id, Hlen1.
Qed.

(** The table after a successful put: the new binding is the head of its
    chain, and the table is well formed. *)
Lemma shape_link t (j : nat) chain k v (len : Z) :
  shape t →
  hash_index k (H.numBuckets t) = Z.of_nat j →
  H.buckets t !! j = Some chain →
  chain_find k (bindings t) = None →
  let t' := {| H.buckets :=
                 <[j := {| key := k; value := v |} :: chain]> (H.buckets t);
               H.length := len;
               H.numBuckets := H.numBuckets t |} in
  shape t' ∧ bindings t' ≡ₚ {| key := k; value := v |} :: bindings t.
Proof.
  intros Hs Hj Hc Hnone t'.
  assert (bindings t' ≡ₚ {| key := k; value := v |} :: bindings t) as Hperm.
  { unfold bindings, t'. simpl. by apply concat_push. }
  split; [|done].
  apply (shape_set_chain t j chain); try done.
  - intros b [->|Hb]%elem_of_cons; [done|].
    by apply (chains_hashed_elem _ (H.buckets t) j chain);
      [apply Hs|..].
  - rewrite <- (concat_insert_split _ _ chain) by done.
    change (NoDup (key <$> bindings t')). rewrite Hperm, fmap_cons.
    apply NoDup_cons. split; [by apply chain_find_None|apply Hs].
Qed.

Lemma SymTable_replace_spec t k v :
  shape t →
  match chain_find k (bindings t) with
  | None => H.SymTable_replace (Some t) (Some k) v = Done (NULL, t)
  | Some b =>
      ∃ t' front back (j : nat) pre post,
        H.SymTable_replace (Some t) (Some k) v = Done (value b, t')
        ∧ key b = k
        ∧ bindings t = front ++ b :: back
        ∧ bindings t' = front ++ {| key := k; value := v |} :: back
        ∧ shape t'
        ∧ H.length t' = H.length t
        ∧ H.numBuckets t' = H.numBuckets t
        ∧ H.buckets t !! j = Some (pre ++ b :: post)
        ∧ H.buckets t'
          = <[j := pre ++ {| key := k; value := v |} :: post]> (H.buckets t)
  end.
Proof.
  intros Hs.
  destruct (bucket_of_table t k Hs) as (j & chain & Hj & Hc & Hh & Hr & Hf).
  unfold H.SymTable_replace. simpl. rewrite Hh. simpl. rewrite Hr. simpl.
  rewrite <- Hf.
  destruct (chain_replace k v chain) as [[old chain']|] eqn:Hrep.
  - apply chain_replace_Some in Hrep
      as (pre & b & post & -> & Hb & Hpre & -> & ->).
    rewrite (chain_find_middle k pre post b Hb Hpre).
    pose proof (lookup_lt_Some _ _ _ Hc).
    rewrite write_array_Done by lia. simpl. rewrite Nat2Z.id.
    assert (bindings t
            = (concat (take j (H.buckets t)) ++ pre)
                ++ b :: (post ++ concat (drop (S j) (H.buckets t)))) as Hold.
    { unfold bindings. by rewrite (concat_split _ _ _ Hc), app_around. }
    eexists _, (concat (take j (H.buckets t)) ++ pre),
      (post ++ concat (drop (S j) (H.buckets t))), j, pre, post.
    split_and!; try done.
    + unfold bindings. simpl. rewrite (concat_insert_split _ _ _ _ Hc).
      by rewrite ?app_around, ?app_around_nil.
    + apply (shape_set_chain t j (pre ++ b :: post)); try done.
      * intros b' Hb'.
        assert (∀ b'', b'' ∈ pre ++ b :: post →
                       hash_index (key b'') (H.numBuckets t) = Z.of_nat j)
          as Hin.
        { intros b'' Hb''.
          by apply (chains_hashed_elem _ (H.buckets t) j (pre ++ b :: post));
            [apply Hs|..]. }
        rewrite elem_of_app, elem_of_cons in Hb'.
        destruct Hb' as [?|[->|?]]; [|done|].
        -- apply Hin, elem_of_app. by left.
        -- apply Hin, elem_of_app. right. by right.
      * rewrite app_around, <- Hb, keys_with_value.
        rewrite <- Hold. apply Hs.
  - apply chain_replace_None in Hrep. by rewrite Hrep.
Qed.

Lemma SymTable_remove_spec t k :
  shape t →
  match chain_find k (bindings t) with
  | None => H.SymTable_remove (Some t) (Some k) = Done (NULL, t)
  | Some b =>
      ∃ t' front back (j : nat) pre post,
        H.SymTable_remove (Some t) (Some k) = Done (value b, t')
        ∧ key b = k
        ∧ bindings t = front ++ b :: back
        ∧ bindings t' = front ++ back
        ∧ shape t'
        ∧ H.length t' = size_sub (H.length t) 1
        ∧ H.numBuckets t' = H.numBuckets t
        ∧ H.buckets t !! j = Some (pre ++ b :: post)
        ∧ H.buckets t' = <[j := pre ++ post]> (H.buckets t)
  end.
Proof.
  intros Hs.
  destruct (bucket_of_table t k Hs) as (j & chain & Hj & Hc & Hh & Hr & Hf).
  unfold H.SymTable_remove. simpl. rewrite Hh. simpl. rewrite Hr. simpl.
  rewrite <- Hf.
  destruct (chain_remove k chain) as [[old chain']|] eqn:Hrem.
  - apply chain_remove_Some in Hrem
      as (pre & b & post & -> & Hb & Hpre & -> & ->).
    rewrite (chain_find_middle k pre post b Hb Hpre).
    pose proof (lookup_lt_Some _ _ _ Hc).
    rewrite write_array_Done by lia. simpl. rewrite Nat2Z.id.
    assert (bindings t
            = (concat (take j (H.buckets t)) ++ pre)
                ++ b :: (post ++ concat (drop (S j) (H.buckets t)))) as Hold.
    { unfold bindings. by rewrite (concat_split _ _ _ Hc), app_around. }
    eexists _, (concat (take j (H.buckets t)) ++ pre),
      (post ++ concat (drop (S j) (H.buckets t))), j, pre, post.
    split_and!; try done.
    + unfold bindings. simpl. rewrite (concat_insert_split _ _ _ _ Hc).
      by rewrite ?app_around, ?app_around_nil.
    + apply (shape_set_chain t j (pre ++ b :: post)); try done.
      * intros b' Hb'.
        apply (chains_hashed_elem _ (H.buckets t) j (pre ++ b :: post));
          [apply Hs|done|].
        rewrite elem_of_app in Hb'. rewrite elem_of_app, elem_of_cons. tauto.
      * rewrite app_around_nil.
        apply (NoDup_keys_without _ b). rewrite <- Hold. apply Hs.
  - apply chain_remove_None in Hrem. by rewrite Hrem.
Qed.

End HashTableUpdates.

(** ** Results of put; the invariants are kept *)

Section HashTableInvariants.
Context {P : Platform}.
Implicit Types (b : Binding) (k : string) (t : H.SymTable) (v : ptr).

Lemma SymTable_put_result (a : Alloc) t k v :
  shape t →
  ∃ r t',
    H.SymTable_put a (Some t) (Some k) v = Done (r, t')
    ∧ shape t'
    ∧ (if grows (calloc_buckets a) t
       then next_prime (H.numBuckets t) (H.numBuckets t')
       else H.numBuckets t' = H.numBuckets t)
    ∧ match chain_find k (bindings t) with
      | Some _ =>
          r = 0 ∧ bindings t' ≡ₚ bindings t ∧ H.length t' = H.length t
      | None =>
          if malloc_binding a && malloc_key a
          then r = 1
               ∧ bindings t' ≡ₚ {| key := k; value := v |} :: bindings t
               ∧ H.length t' = size_add (H.length t) 1
          else r = 0 ∧ bindings t' ≡ₚ bindings t ∧ H.length t' = H.length t
      end.
Proof.
  intros Hs.
  destruct (SymTable_put_spec a t k v Hs)
    as (t1 & j & chain & Hgrow & Hs1 & Hlen1 & Hperm & Hcase & Hj & Hc & Hput).
  assert (if grows (calloc_buckets a) t
          then next_prime (H.numBuckets t) (H.numBuckets t1)
          else H.numBuckets t1 = H.numBuckets t) as Hnb.
  { destruct (grows _ t); [apply Hcase|by subst]. }
  rewrite Hput.
  destruct (chain_find k (bindings t)) as [b|] eqn:Hfind.
  { exists 0, t1. by split_and!. }
  destruct (malloc_binding a && malloc_key a).
  - eexists 1, _. split; [reflexivity|].
    destruct (shape_link t1 j chain k v (size_add (H.length t) 1))
      as [Hs' Hperm']; try done.
    { by rewrite (chain_find_perm k _ _ (proj2 (proj2 (proj2 Hs1))) Hperm). }
    split_and!; try done. by rewrite Hperm', Hperm.
  - exists 0, t1. by split_and!.
Qed.

Lemma shape_new t : H.SymTable_new true true = Done (Some t) → shape t.
Proof.
  intros [= <-]. unfold shape, bindings. simpl H.numBuckets. simpl H.buckets.
  split_and!.
  - unfold H.primeBuckCounts. left.
  - unfold H.calloc_array. rewrite length_replicate. lia.
  - apply chains_hashed_calloc.
  - rewrite concat_calloc. constructor.
Qed.

Lemma shape_put (a : Alloc) t k v (r : Z) t' :
  shape t → H.SymTable_put a (Some t) (Some k) v = Done (r, t') → shape t'.
Proof.
  intros Hs Hput.
  destruct (SymTable_put_result a t k v Hs) as (r' & t'' & Hput' & Hs' & _).
  rewrite Hput in Hput'. by injection Hput' as -> ->.
Qed.

Lemma shape_replace t k v (old : ptr) t' :
  shape t → H.SymTable_replace (Some t) (Some k) v = Done (old, t') →
  shape t'.
Proof.
  intros Hs Hrep. pose proof (SymTable_replace_spec t k v Hs) as Hspec.
  destruct (chain_find k (bindings t)).
  - destruct Hspec as (t'' & ? & ? & ? & ? & ? & Hrep' & _ & _ & _ & Hs' & _).
    rewrite Hrep in Hrep'. by injection Hrep' as -> ->.
  - rewrite Hrep in Hspec. by injection Hspec as -> ->.
Qed.

Lemma shape_remove t k (removed : ptr) t' :
  shape t → H.SymTable_remove (Some t) (Some k) = Done (removed, t') →
  shape t'.
Proof.
  intros Hs Hrem. pose proof (SymTable_remove_spec t k Hs) as Hspec.
  destruct (chain_find k (bindings t)).
  - destruct Hspec as (t'' & ? & ? & ? & ? & ? & Hrem' & _ & _ & _ & Hs' & _).
    rewrite Hrem in Hrem'. by injection Hrem' as -> ->.
  - rewrite Hrem in Hspec. by injection Hspec as -> ->.
Qed.

(** Every table a client can obtain is well formed. *)
Lemma reachable_shape t : reachable t → shape t.
Proof.
  induction 1; eauto using shape_new, shape_put, shape_replace, shape_remove.
Qed.

(** [length] counts the bindings as long as the count fits a [size_t]. *)
Lemma counted_new t : H.SymTable_new true true = Done (Some t) → counted t.
Proof.
  intros [= <-]. unfold counted, bindings. simpl H.length. simpl H.buckets.
  rewrite concat_calloc. split; [done|apply size_modulus_pos].
Qed.

Lemma counted_put (a : Alloc) t k v (r : Z) t' :
  shape t → counted t → H.length t + 1 < 2 ^ size_bits →
  H.SymTable_put a (Some t) (Some k) v = Done (r, t') → counted t'.
Proof.
  intros Hs [Hc Hlt] Hroom Hput.
  destruct (SymTable_put_result a t k v Hs) as (r' & t'' & Hput' & _ & _ & Hr).
  rewrite Hput in Hput'. injection Hput' as <- <-.
  assert (r = 0 ∧ bindings t' ≡ₚ bindings t ∧ H.length t' = H.length t
          → counted t') as Hsame.
  { intros (_ & Hperm & Hlen). unfold counted. by rewrite Hperm, Hlen. }
  destruct (chain_find k (bindings t)); [by apply Hsame|].
  destruct (malloc_binding a && malloc_key a); [|by apply Hsame].
  destruct Hr as (_ & Hperm & Hlen). unfold counted.
  rewrite Hperm, Hlen. unfold size_add. rewrite size_wrap_small by lia.
  simpl length. lia.
Qed.

Lemma counted_replace t k v (old : ptr) t' :
  shape t → counted t →
  H.SymTable_replace (Some t) (Some k) v = Done (old, t') → counted t'.
Proof.
  intros Hs [Hc Hlt] Hrep. pose proof (SymTable_replace_spec t k v Hs) as Hspec.
  destruct (chain_find k (bindings t)).
  - destruct Hspec
      as (t'' & front & back & ? & ? & ? & Hrep' & _ & Hold & Hnew & _ & Hlen & _).
    rewrite Hrep in Hrep'. injection Hrep' as _ <-.
    unfold counted. rewrite Hlen, Hnew. rewrite Hold in Hc.
    rewrite length_app in *. simpl in *. done.
  - rewrite Hrep in Hspec. by injection Hspec as _ ->.
Qed.

Lemma counted_remove t k (removed : ptr) t' :
  shape t → counted t →
  H.SymTable_remove (Some t) (Some k) = Done (removed, t') → counted t'.
Proof.
  intros Hs [Hc Hlt] Hrem. pose proof (SymTable_remove_spec t k Hs) as Hspec.
  destruct (chain_find k (bindings t)).
  - destruct Hspec
      as (t'' & front & back & ? & ? & ? & Hrem' & _ & Hold & Hnew & _ & Hlen & _).
    rewrite Hrem in Hrem'. injection Hrem' as _ <-.
    unfold counted. rewrite Hlen, Hnew. rewrite Hold in Hc.
    rewrite length_app in *. simpl in Hc. unfold size_sub.
    rewrite size_wrap_small by lia. lia.
  - rewrite Hrem in Hspec. by injection Hspec as _ ->.
Qed.

(** Looking up after a binding was added. *)
Lemma chain_find_added (l l' : list Binding) k k' v :
  NoDup (key <$> l') →
  l' ≡ₚ {| key := k; value := v |} :: l →
  chain_find k' l'
  = if decide (k' = k) then Some {| key := k; value := v |}
    else chain_find k' l.
Proof.
  intros Hnd Hperm. by rewrite (chain_find_perm k' _ _ Hnd Hperm),
    chain_find_cons.
Qed.

End HashTableInvariants.

Example demo_table_510_shape : shape (P := lp64_unsigned) (demo_table 510).
Proof. by_evaluation. Qed.

(** Growth lags one insertion behind: 510 bindings still live in 509 buckets,
    and the 511th put rehashes them into 1021. *)
Example growth_lags_one_put :
  (H.length (demo_table 510), H.numBuckets (demo_table 510)) = (510, 509)
  ∧ (H.length (demo_table 511), H.numBuckets (demo_table 511)) = (511, 1021).
Proof. vm_compute. split; reflexivity. Qed.

(** * Growth *)

Section Growth.
Context {P : Platform}.

Lemma next_prime_lt (n n' : Z) : next_prime n n' → n < n'.
Proof.
  intros (i & Hi & Hi'). unfold H.primeBuckCounts in Hi, Hi'.
  do 8 (destruct i as [|i];
        [simpl in Hi, Hi'; simplify_eq; lia|]).
  done.
Qed.

Lemma grow_if_needed_unfold (c : bool) (t : H.SymTable) :
  H.grow_if_needed c t
  = (if (H.length t >? H.numBuckets t) && (H.numBuckets t <? 65521)
     then H.SymTable_expand c t
     else Done t).
Proof.
  unfold H.grow_if_needed.
  by destruct (H.length t >? H.numBuckets t).
Qed.

Lemma grows_true (c : bool) (t : H.SymTable) :
  grows c t = true
  ↔ H.length t > H.numBuckets t ∧ H.numBuckets t ≠ 65521 ∧ c = true.
Proof.
  unfold grows.
  destruct (Z.gtb_spec (H.length t) (H.numBuckets t)),
           (Z.eqb_spec (H.numBuckets t) 65521), c; simpl;
    split; try done; try lia; intros (? & ? & ?); try done; lia.
Qed.

End Growth.

(** The expansion that a put runs, and the answers of get around it. *)
Lemma expansion_keeps_answers {P : Platform}
    (t : H.SymTable) (a : Alloc) (k : string) (v : ptr) :
  shape t →
  H.length t > H.numBuckets t →
  H.numBuckets t ≠ 65521 →
  calloc_buckets a = true →
  ∃ t1 r t2,
    H.SymTable_expand true t = Done t1
    ∧ H.SymTable_put a (Some t) (Some k) v = Done (r, t2)
    ∧ next_prime (H.numBuckets t) (H.numBuckets t1)
    ∧ H.numBuckets t2 = H.numBuckets t1
    ∧ shape t1
    ∧ bindings t1 ≡ₚ bindings t
    ∧ H.length t1 = H.length t
    ∧ (∀ k', H.SymTable_get (Some t1) (Some k')
             = H.SymTable_get (Some t) (Some k'))
    ∧ (∀ k', H.SymTable_contains (Some t) (Some k') = Done 1 →
             H.SymTable_get (Some t2) (Some k')
             = H.SymTable_get (Some t) (Some k')).
Proof.
  intros Hs Hlen Hmax Hmem.
  assert (grows (calloc_buckets a) t = true) as Hg.
  { unfold grows. rewrite Hmem.
    destruct (Z.gtb_spec (H.length t) (H.numBuckets t)); [|lia].
    by destruct (Z.eqb_spec (H.numBuckets t) 65521). }
  destruct (SymTable_put_spec a t k v Hs)
    as (t1 & j & chain & _ & Hs1 & Hlen1 & Hperm & Hcase & _ & _ & _).
  rewrite Hg in Hcase. destruct Hcase as [Hexp Hnext].
  destruct (SymTable_put_result a t k v Hs) as (r & t2 & Hput & Hs2 & Hnb & Hr).
  rewrite Hg in Hnb.
  exists t1, r, t2. split_and!; try done.
  - destruct Hnext as (i & Hi & Hi1), Hnb as (i' & Hi' & Hi2).
    assert (i' = i) as ->.
    { eapply NoDup_lookup; [|exact Hi'|exact Hi]. by_evaluation. }
    congruence.
  - intros k'. by apply SymTable_get_perm.
  - intros k' Hbound%SymTable_contains_1; [|done].
    rewrite !SymTable_get_spec by done.
    destruct (chain_find k (bindings t)) eqn:Hk.
    + destruct Hr as (_ & Hperm2 & _).
      by rewrite (chain_find_perm k' _ _ (proj2 (proj2 (proj2 Hs2))) Hperm2).
    + destruct (malloc_binding a && malloc_key a).
      * destruct Hr as (_ & Hperm2 & _).
        rewrite (chain_find_added _ _ k k' v (proj2 (proj2 (proj2 Hs2))) Hperm2).
        case_decide as Hkk; [|done]. subst. rewrite Hk in Hbound.
        by destruct Hbound.
      * destruct Hr as (_ & Hperm2 & _).
        by rewrite (chain_find_perm k' _ _ (proj2 (proj2 (proj2 Hs2))) Hperm2).
Qed.


(** Claim C1. When a put finds more bindings than buckets, below the last
    bucket count and with memory for the new array, the expansion moves every
    binding into the chain of its hash in an array of the next bucket count:
    the bindings are the same, [length] is not changed by the expansion, get
    answers for every key as before the expansion, and for every binding the
    table held get returns the binding's value before the expansion, after
    it, and after the put that triggered it.  The bucket count may be any of
    509 ... 32749. *)
Theorem growth_is_transparent {P : Platform}
    (t : H.SymTable) (a : Alloc) (k : string) (v : ptr) :
  shape t →
  H.length t > H.numBuckets t →
  H.numBuckets t ≠ 65521 →
  calloc_buckets a = true →
  ∃ t1 r t2,
    H.SymTable_expand true t = Done t1
    ∧ H.SymTable_put a (Some t) (Some k) v = Done (r, t2)
    ∧ next_prime (H.numBuckets t) (H.numBuckets t1)
    ∧ H.numBuckets t2 = H.numBuckets t1
    ∧ shape t1
    ∧ bindings t1 ≡ₚ bindings t
    ∧ H.length t1 = H.length t
    ∧ (∀ k', H.SymTable_get (Some t1) (Some k')
             = H.SymTable_get (Some t) (Some k'))
    ∧ (∀ k', H.SymTable_contains (Some t) (Some k') = Done 1 →
             H.SymTable_get (Some t2) (Some k')
             = H.SymTable_get (Some t) (Some k'))
    ∧ (∀ b, b ∈ concat (H.buckets t) →
            H.SymTable_get (Some t) (Some (key b)) = Done (value b)
            ∧ H.SymTable_get (Some t1) (Some (key b)) = Done (value b)
            ∧ H.SymTable_get (Some t2) (Some (key b)) = Done (value b)).
Proof.
  intros Hs Hlen Hmax Hmem.
  destruct (expansion_keeps_answers t a k v Hs Hlen Hmax Hmem)
    as (t1 & r & t2 & Hexp & Hput & Hnext & Hnb & Hs1 & Hperm & Hlen1
        & Hget1 & Hget2).
  exists t1, r, t2. split_and!; try done.
  intros b Hb. pose proof (proj2 (proj2 (proj2 Hs))) as Hnd.
  assert (chain_find (key b) (bindings t) = Some b) as Hfind.
  { by apply chain_find_NoDup. }
  assert (H.SymTable_get (Some t) (Some (key b)) = Done (value b)) as Hget.
  { by rewrite SymTable_get_spec, Hfind. }
  split_and!; [done|by rewrite Hget1|].
  rewrite Hget2; [done|]. apply SymTable_contains_1; [done|].
  by rewrite Hfind.
Qed.

Lemma growth_is_transparent_witness :
  ∃ t1 r t2,
    H.SymTable_expand (P := lp64_unsigned) true (demo_table 510) = Done t1
    ∧ H.SymTable_put (P := lp64_unsigned) all_ok
        (Some (demo_table 510)) (Some "new"%string) 7 = Done (r, t2)
    ∧ next_prime (H.numBuckets (demo_table 510)) (H.numBuckets t1)
    ∧ H.numBuckets t2 = H.numBuckets t1
    ∧ shape (P := lp64_unsigned) t1
    ∧ bindings t1 ≡ₚ bindings (demo_table 510)
    ∧ H.length t1 = H.length (demo_table 510)
    ∧ (∀ k', H.SymTable_get (P := lp64_unsigned) (Some t1) (Some k')
             = H.SymTable_get (P := lp64_unsigned)
                 (Some (demo_table 510)) (Some k'))
    ∧ (∀ k', H.SymTable_contains (P := lp64_unsigned)
               (Some (demo_table 510)) (Some k') = Done 1 →
             H.SymTable_get (P := lp64_unsigned) (Some t2) (Some k')
             = H.SymTable_get (P := lp64_unsigned)
                 (Some (demo_table 510)) (Some k'))
    ∧ (∀ b, b ∈ concat (H.buckets (demo_table 510)) →
            H.SymTable_get (P := lp64_unsigned)
              (Some (demo_table 510)) (Some (key b)) = Done (value b)
            ∧ H.SymTable_get (P := lp64_unsigned) (Some t1) (Some (key b))
              = Done (value b)
            ∧ H.SymTable_get (P := lp64_unsigned) (Some t2) (Some (key b))
              = Done (value b)).
Proof.
  apply (growth_is_transparent (P := lp64_unsigned)
           (demo_table 510) all_ok "new" 7).
  - by_evaluation.
  - vm_compute. reflexivity.
  - vm_compute. discriminate.
  - reflexivity.
Defined.

(** The expansion at the boundaries 509, 1021 and 2039, on a table holding the
    one binding ("key", 1): the new bucket count, [length], and what get
    returns for "key" afterwards. *)
Example expansion_at_first_boundaries :
  (λ n,
     let j := Z.to_nat (hash_index (P := lp64_unsigned) "key" n) in
     let t := {| H.buckets :=
                   <[j := [{| key := "key"; value := 1 |}]]>
                     (H.calloc_array n);
                 H.length := 1;
                 H.numBuckets := n |} in
     t' ← H.SymTable_expand (P := lp64_unsigned) true t;
     p ← H.SymTable_get (P := lp64_unsigned) (Some t') (Some "key"%string);
     Done (H.numBuckets t', H.length t', p))
  <$> [509; 1021; 2039]
  = [Done (1021, 1, 1); Done (2039, 1, 1); Done (4093, 1, 1)].
Proof. vm_compute. reflexivity. Qed.

(** Claim C3. Put starts by expanding the table exactly when [length] is
    greater than the bucket count and the bucket count is not yet 65521; the
    expansion, given memory, moves the bucket count to the next element of
    [primeBuckCounts]; with at most as many bindings as buckets, or at 65521,
    the bucket count stays. *)
Theorem growth_policy {P : Platform}
    (t : H.SymTable) (a : Alloc) (k : string) (v : ptr) :
  shape t →
  ∃ r t',
    H.SymTable_put a (Some t) (Some k) v = Done (r, t')
    ∧ H.grow_if_needed (calloc_buckets a) t
      = (if (H.length t >? H.numBuckets t) && (H.numBuckets t <? 65521)
         then H.SymTable_expand (calloc_buckets a) t
         else Done t)
    ∧ (calloc_buckets a = true → H.numBuckets t ≠ 65521 →
       (H.numBuckets t' ≠ H.numBuckets t ↔ H.length t > H.numBuckets t))
    ∧ (calloc_buckets a = true → H.numBuckets t ≠ 65521 →
       H.length t > H.numBuckets t →
       next_prime (H.numBuckets t) (H.numBuckets t'))
    ∧ (H.length t <= H.numBuckets t → H.numBuckets t' = H.numBuckets t)
    ∧ (H.numBuckets t = 65521 → H.numBuckets t' = 65521).
Proof.
  intros Hs.
  destruct (SymTable_put_result a t k v Hs) as (r & t' & Hput & _ & Hnb & _).
  exists r, t'.
  destruct (grows (calloc_buckets a) t) eqn:Hg.
  - apply grows_true in Hg as (Hgt & Hmax & Hmem).
    pose proof (next_prime_lt _ _ Hnb).
    split_and!; [done | apply grow_if_needed_unfold | | done | lia | done].
    intros _ _. split; [done|lia].
  - assert (¬ (H.length t > H.numBuckets t ∧ H.numBuckets t ≠ 65521
               ∧ calloc_buckets a = true)) as Hno.
    { rewrite <- grows_true. by rewrite Hg. }
    split_and!; [done | apply grow_if_needed_unfold | | | done | ].
    + intros Hmem Hmax. split; [done|]. intros Hgt. by destruct Hno.
    + intros Hmem Hmax Hgt. by destruct Hno.
    + intros Hmax. by rewrite Hnb.
Qed.

Lemma growth_policy_witness :
  ∃ r t',
    H.SymTable_put (P := lp64_unsigned) all_ok
      (Some (demo_table 510)) (Some "new"%string) 7 = Done (r, t')
    ∧ H.grow_if_needed (P := lp64_unsigned) (calloc_buckets all_ok)
        (demo_table 510)
      = (if (H.length (demo_table 510) >? H.numBuckets (demo_table 510))
            && (H.numBuckets (demo_table 510) <? 65521)
         then H.SymTable_expand (P := lp64_unsigned) (calloc_buckets all_ok)
                (demo_table 510)
         else Done (demo_table 510))
    ∧ (calloc_buckets all_ok = true → H.numBuckets (demo_table 510) ≠ 65521 →
       (H.numBuckets t' ≠ H.numBuckets (demo_table 510)
        ↔ H.length (demo_table 510) > H.numBuckets (demo_table 510)))
    ∧ (calloc_buckets all_ok = true → H.numBuckets (demo_table 510) ≠ 65521 →
       H.length (demo_table 510) > H.numBuckets (demo_table 510) →
       next_prime (H.numBuckets (demo_table 510)) (H.numBuckets t'))
    ∧ (H.length (demo_table 510) <= H.numBuckets (demo_table 510) →
       H.numBuckets t' = H.numBuckets (demo_table 510))
    ∧ (H.numBuckets (demo_table 510) = 65521 → H.numBuckets t' = 65521).
Proof.
  apply (growth_policy (P := lp64_unsigned) (demo_table 510) all_ok "new" 7).
  by_evaluation.
Defined.

(** * The linked list *)

Section LinkedList.
Context {P : Platform}.
Implicit Types (b : Binding) (k : string) (t : L.SymTable) (v : ptr).

Lemma list_put_spec (a : Alloc) t k v :
  L.SymTable_put a (Some t) (Some k) v
  = match chain_find k (L.firstBinding t) with
    | Some _ => Done (0, t)
    | None =>
        if malloc_binding a && malloc_key a
        then Done (1, {| L.firstBinding :=
                           {| key := k; value := v |} :: L.firstBinding t;
                         L.length := size_add (L.length t) 1 |})
        else Done (0, t)
    end.
Proof.
  unfold L.SymTable_put. simpl.
  destruct (chain_find k (L.firstBinding t)); [done|].
  by destruct (malloc_binding a), (malloc_key a).
Qed.

Lemma list_replace_spec t k v :
  match chain_find k (L.firstBinding t) with
  | None => L.SymTable_replace (Some t) (Some k) v = Done (NULL, t)
  | Some b =>
      ∃ pre post,
        L.firstBinding t = pre ++ b :: post
        ∧ key b = k
        ∧ L.SymTable_replace (Some t) (Some k) v
          = Done (value b,
                  {| L.firstBinding :=
                       pre ++ {| key := k; value := v |} :: post;
                     L.length := L.length t |})
  end.
Proof.
  unfold L.SymTable_replace. simpl.
  destruct (chain_replace k v (L.firstBinding t)) as [[old chain']|] eqn:Hrep.
  - apply chain_replace_Some in Hrep
      as (pre & b & post & Hfb & Hb & Hpre & -> & ->).
    rewrite Hfb, (chain_find_middle k pre post b Hb Hpre).
    by exists pre, post.
  - apply chain_replace_None in Hrep. by rewrite Hrep.
Qed.

Lemma list_remove_spec t k :
  match chain_find k (L.firstBinding t) with
  | None => L.SymTable_remove (Some t) (Some k) = Done (NULL, t)
  | Some b =>
      ∃ pre post,
        L.firstBinding t = pre ++ b :: post
        ∧ key b = k
        ∧ L.SymTable_remove (Some t) (Some k)
          = Done (value b,
                  {| L.firstBinding := pre ++ post;
                     L.length := size_sub (L.length t) 1 |})
  end.
Proof.
  unfold L.SymTable_remove. simpl.
  destruct (chain_remove k (L.firstBinding t)) as [[old chain']|] eqn:Hrem.
  - apply chain_remove_Some in Hrem
      as (pre & b & post & Hfb & Hb & Hpre & -> & ->).
    rewrite Hfb, (chain_find_middle k pre post b Hb Hpre).
    by exists pre, post.
  - apply chain_remove_None in Hrem. by rewrite Hrem.
Qed.

Lemma list_get_spec t k :
  L.SymTable_get (Some t) (Some k)
  = Done (match chain_find k (L.firstBinding t) with
          | Some b => value b
          | None => NULL
          end).
Proof.
  unfold L.SymTable_get. simpl. by destruct (chain_find k (L.firstBinding t)).
Qed.

Lemma list_contains_spec t k :
  L.SymTable_contains (Some t) (Some k)
  = Done (match chain_find k (L.firstBinding t) with
          | Some _ => 1
          | None => 0
          end).
Proof.
  unfold L.SymTable_contains. simpl.
  by destruct (chain_find k (L.firstBinding t)).
Qed.

Lemma list_contains_1 t k :
  L.SymTable_contains (Some t) (Some k) = Done 1
  ↔ is_Some (chain_find k (L.firstBinding t)).
Proof.
  rewrite list_contains_spec.
  destruct (chain_find k (L.firstBinding t)); split; try done.
Qed.
End LinkedList.

(** * Put with a key that is bound *)

(** Claim C2. Put with a key that is already bound returns 0 and leaves the
    bindings as they are: [length] is the same and get and contains answer
    for every key as before.  In the list the table is the same object; in
    the hash table it is the same object too unless the put first expanded
    the bucket array, which keeps every binding. *)
Theorem put_bound_key_rejected {P : Platform}
    (a : Alloc) (k : string) (v : ptr) :
  (∀ t : H.SymTable,
     shape t →
     H.SymTable_contains (Some t) (Some k) = Done 1 →
     ∃ t', H.SymTable_put a (Some t) (Some k) v = Done (0, t')
           ∧ H.SymTable_getLength (Some t') = H.SymTable_getLength (Some t)
           ∧ bindings t' ≡ₚ bindings t
           ∧ (∀ k', H.SymTable_get (Some t') (Some k')
                    = H.SymTable_get (Some t) (Some k'))
           ∧ (∀ k', H.SymTable_contains (Some t') (Some k')
                    = H.SymTable_contains (Some t) (Some k'))
           ∧ (grows (calloc_buckets a) t = false → t' = t))
  ∧ (∀ t : L.SymTable,
       L.SymTable_contains (Some t) (Some k) = Done 1 →
       L.SymTable_put a (Some t) (Some k) v = Done (0, t)).
Proof.
  split.
  - intros t Hs Hbound%SymTable_contains_1; [|done].
    destruct (SymTable_put_spec a t k v Hs)
      as (t1 & j & chain & _ & Hs1 & Hlen1 & Hperm & Hcase & _ & _ & Hput).
    destruct Hbound as [b Hb]. rewrite Hb in Hput.
    exists t1. split_and!; try done.
    + unfold H.SymTable_getLength. simpl. by rewrite Hlen1.
    + intros k'. by apply SymTable_get_perm.
    + intros k'. by apply SymTable_contains_perm.
    + intros Hg. by rewrite Hg in Hcase.
  - intros t Hbound%list_contains_1. rewrite list_put_spec.
    by destruct Hbound as [b ->].
Qed.

Lemma put_bound_key_rejected_witness :
  (∃ t', H.SymTable_put (P := lp64_unsigned) all_ok
           (Some (demo_table 3)) (Some "aab"%string) 7 = Done (0, t')
         ∧ H.SymTable_get (P := lp64_unsigned) (Some t') (Some "aab"%string)
           = H.SymTable_get (P := lp64_unsigned)
               (Some (demo_table 3)) (Some "aab"%string))
  ∧ L.SymTable_put (P := lp64_unsigned) all_ok
      (Some (demo_list 3)) (Some "aab"%string) 7 = Done (0, demo_list 3).
Proof.
  destruct (put_bound_key_rejected (P := lp64_unsigned) all_ok "aab" 7)
    as [Hhash Hlist].
  split.
  - destruct (Hhash (demo_table 3)) as (t' & Hput & _ & _ & Hget & _).
    + by_evaluation.
    + vm_compute. reflexivity.
    + exists t'. split; [exact Hput|apply Hget].
  - apply Hlist. vm_compute. reflexivity.
Defined.

(** The expansion a put with a bound key may run does change the bucket
    array: with 510 bindings in 509 buckets the put is rejected and the
    table has 1021 buckets afterwards. *)
Example put_bound_key_may_expand :
  H.numBuckets (demo_table 510) = 509
  ∧ ∃ t', H.SymTable_put (P := lp64_unsigned) all_ok
            (Some (demo_table 510)) (Some "aab"%string) 7 = Done (0, t')
          ∧ H.numBuckets t' = 1021
          ∧ H.length t' = 510.
Proof.
  split; [by vm_compute|].
  eexists. split; [vm_compute; reflexivity|]. by vm_compute.
Qed.

(** * Remove *)

(** Claim C5. Remove with a bound key unlinks the key's binding from its
    chain, at the head or further on, returns the value stored for the key,
    lowers [length] by one, and leaves the key unbound; the other keys keep
    their values.  In both implementations. *)
Theorem remove_bound_key {P : Platform} (k : string) :
  (∀ t : H.SymTable,
     shape t → counted t →
     H.SymTable_contains (Some t) (Some k) = Done 1 →
     ∃ b t' (j : nat) pre post,
       H.SymTable_remove (Some t) (Some k) = Done (value b, t')
       ∧ key b = k
       ∧ H.SymTable_get (Some t) (Some k) = Done (value b)
       ∧ H.buckets t !! j = Some (pre ++ b :: post)
       ∧ H.buckets t' = <[j := pre ++ post]> (H.buckets t)
       ∧ H.numBuckets t' = H.numBuckets t
       ∧ H.SymTable_getLength (Some t') = Done (H.length t - 1)
       ∧ H.SymTable_contains (Some t') (Some k) = Done 0
       ∧ (∀ k', k' ≠ k → H.SymTable_get (Some t') (Some k')
                         = H.SymTable_get (Some t) (Some k'))
       ∧ shape t' ∧ counted t')
  ∧ (∀ t : L.SymTable,
       list_shape t → list_counted t →
       L.SymTable_contains (Some t) (Some k) = Done 1 →
       ∃ b t' pre post,
         L.SymTable_remove (Some t) (Some k) = Done (value b, t')
         ∧ key b = k
         ∧ L.SymTable_get (Some t) (Some k) = Done (value b)
         ∧ L.firstBinding t = pre ++ b :: post
         ∧ L.firstBinding t' = pre ++ post
         ∧ L.SymTable_getLength (Some t') = Done (L.length t - 1)
         ∧ L.SymTable_contains (Some t') (Some k) = Done 0
         ∧ (∀ k', k' ≠ k → L.SymTable_get (Some t') (Some k')
                           = L.SymTable_get (Some t) (Some k'))
         ∧ list_shape t' ∧ list_counted t').
Proof.
  split.
  - intros t Hs Hc Hbound%SymTable_contains_1; [|done].
    pose proof (SymTable_remove_spec t k Hs) as Hspec.
    destruct Hbound as [b Hb]. rewrite Hb in Hspec.
    destruct Hspec as (t' & front & back & j & pre & post & Hrem & Hkey & Hold
                       & Hnew & Hs' & Hlen & Hnb & Hj & Hbs).
    pose proof (proj2 (proj2 (proj2 Hs))) as Hnd. rewrite Hold in Hnd.
    pose proof (counted_remove t k (value b) t' Hs Hc Hrem) as Hc'.
    exists b, t', j, pre, post. split_and!; try done.
    + by rewrite SymTable_get_spec, Hb.
    + unfold H.SymTable_getLength. simpl. rewrite Hlen.
      destruct Hc as [Hc Hlt]. rewrite Hold, length_app in Hc. simpl in Hc.
      unfold size_sub. by rewrite size_wrap_small by lia.
    + rewrite SymTable_contains_spec, Hnew, (chain_find_without _ b) by done.
      by rewrite decide_True.
    + intros k' Hk'. rewrite !SymTable_get_spec, Hnew, Hold by done.
      rewrite (chain_find_without _ b) by done.
      rewrite decide_False; [done|congruence].
  - intros t Hs [Hc Hlt] Hbound%list_contains_1.
    pose proof (list_remove_spec t k) as Hspec.
    destruct Hbound as [b Hb]. rewrite Hb in Hspec.
    destruct Hspec as (pre & post & Hold & Hkey & Hrem).
    unfold list_shape in Hs. rewrite Hold in Hs.
    rewrite Hold, length_app in Hc. simpl in Hc.
    eexists b, _, pre, post. split; [exact Hrem|]. simpl.
    assert (size_sub (L.length t) 1 = L.length t - 1) as Hlen.
    { unfold size_sub. by rewrite size_wrap_small by lia. }
    split_and!; try done.
    + by rewrite list_get_spec, Hb.
    + unfold L.SymTable_getLength. simpl. by rewrite Hlen.
    + rewrite list_contains_spec. simpl.
      rewrite (chain_find_without _ b) by done. by rewrite decide_True.
    + intros k' Hk'. rewrite !list_get_spec, Hold. simpl.
      rewrite (chain_find_without _ b) by done.
      rewrite decide_False; [done|congruence].
    + by apply (NoDup_keys_without _ b).
    + unfold list_counted. simpl. rewrite Hlen, length_app. lia.
Qed.

Lemma remove_bound_key_witness :
  (∃ b t',
     H.SymTable_remove (P := lp64_unsigned)
       (Some (demo_table 3)) (Some "aab"%string) = Done (value b, t')
     ∧ H.SymTable_contains (P := lp64_unsigned) (Some t') (Some "aab"%string)
       = Done 0)
  ∧ (∃ b t',
       L.SymTable_remove (P := lp64_unsigned)
         (Some (demo_list 3)) (Some "aab"%string) = Done (value b, t')
       ∧ L.SymTable_contains (Some t') (Some "aab"%string) = Done 0).
Proof.
  destruct (remove_bound_key (P := lp64_unsigned) "aab") as [Hhash Hlist].
  split.
  - destruct (Hhash (demo_table 3))
      as (b & t' & _ & _ & _ & Hrem & _ & _ & _ & _ & _ & _ & Hgone & _).
    + by_evaluation.
    + by_evaluation.
    + vm_compute. reflexivity.
    + exists b, t'. split; [exact Hrem|exact Hgone].
  - destruct (Hlist (demo_list 3))
      as (b & t' & _ & _ & Hrem & _ & _ & _ & _ & _ & Hgone & _).
    + by_evaluation.
    + by_evaluation.
    + vm_compute. reflexivity.
    + exists b, t'. split; [exact Hrem|exact Hgone].
Defined.

(** The scenario of the specification: put a, b, a; replace a; remove b. *)
Example scenario_hash :
  hash_session (P := lp64_unsigned)
    [Put all_ok (Some "a"%string) 1; Put all_ok (Some "b"%string) 2;
     Put all_ok (Some "a"%string) 3; GetLength; Get (Some "a"%string);
     Replace (Some "a"%string) 9; Get (Some "a"%string);
     Remove (Some "b"%string); GetLength; Contains (Some "b"%string)]
  = Done [RetInt 1; RetInt 1; RetInt 0; RetSize 2; RetPtr 1;
          RetPtr 1; RetPtr 9; RetPtr 2; RetSize 1; RetInt 0].
Proof. vm_compute. reflexivity. Qed.

Example scenario_list :
  list_session (P := lp64_unsigned)
    [Put all_ok (Some "a"%string) 1; Put all_ok (Some "b"%string) 2;
     Put all_ok (Some "a"%string) 3; GetLength; Get (Some "a"%string);
     Replace (Some "a"%string) 9; Get (Some "a"%string);
     Remove (Some "b"%string); GetLength; Contains (Some "b"%string)]
  = Done [RetInt 1; RetInt 1; RetInt 0; RetSize 2; RetPtr 1;
          RetPtr 1; RetPtr 9; RetPtr 2; RetSize 1; RetInt 0].
Proof. vm_compute. reflexivity. Qed.

(** * Map *)

Section Traversal.
Context {P : Platform}.

Lemma SymTable_map_spec {S : Type} (t : H.SymTable) (f : pfApply_t S)
    (extra : ptr) (s : S) :
  Z.of_nat (length (H.buckets t)) = H.numBuckets t →
  H.SymTable_map (Some t) (Some f) extra s
  = Done (foldl (λ s b, f (key b) (value b) extra s) s (bindings t)).
Proof.
  intros Hlen. unfold H.SymTable_map. simpl.
  rewrite (for_loop_whole_array (H.buckets t) _
             (λ chain s,
                for_chain chain
                  (λ b s, Done (f (key b) (value b) extra s)) s)) by done.
  by rewrite for_chain_concat, for_chain_pure.
Qed.

Lemma foldl_record_call (extra : ptr) (l : list Binding)
    (calls : list (string * ptr * ptr)) :
  foldl (λ s b, record_call (key b) (value b) extra s) calls l
  = calls ++ ((λ b, (key b, value b, extra)) <$> l).
Proof.
  revert calls. induction l as [|b l IH]; intros calls; simpl.
  - by rewrite app_nil_r.
  - rewrite IH. unfold record_call. by rewrite <- app_assoc.
Qed.

Lemma list_map_spec {S : Type} (t : L.SymTable) (f : pfApply_t S)
    (extra : ptr) (s : S) :
  L.SymTable_map (Some t) (Some f) extra s
  = Done (foldl (λ s b, f (key b) (value b) extra s) s (L.firstBinding t)).
Proof. unfold L.SymTable_map. simpl. by rewrite for_chain_pure. Qed.
End Traversal.

(** Claim C6, as stated, fails: after the expansion that the 511th put runs,
    "aaa", the first key put, is passed before "amd", put 315 puts later, and
    both are in bucket 15 of 1021. *)
Lemma map_is_not_newest_first :
  ∃ calls,
    H.SymTable_map (Some (demo_table 511)) (Some record_call) 0 [] = Done calls
    ∧ ¬ newest_first (P := lp64_unsigned) (put_keys 511)
          (H.numBuckets (demo_table 511)) calls.
Proof.
  eexists. split; [vm_compute; reflexivity|].
  intros Hnf. specialize (Hnf "aaa"%string "amd"%string).
  (* the instance of [newest_first] at these two keys evaluates to false *)
  revert Hnf. by_evaluation.
Qed.

(** * The search in [primeBuckCounts] *)

(** Claim C9. In every table a client can obtain the bucket count is an
    element of [primeBuckCounts]; the search of the expansion finds it at an
    index inside the array; below 65521 the next index is inside the array
    too and the expansion returns; at 65521 put does not call the expansion;
    put never reads outside an array. *)
Theorem bucket_count_search_in_bounds {P : Platform} (t : H.SymTable) :
  reachable t →
  H.numBuckets t ∈ H.primeBuckCounts
  ∧ (∃ index : nat,
       H.find_index H.primeBuckCounts 0 (H.numBuckets t)
       = Done (Z.of_nat index)
       ∧ (index < length H.primeBuckCounts)%nat
       ∧ H.primeBuckCounts !! index = Some (H.numBuckets t)
       ∧ (H.numBuckets t < 65521 →
          (S index < length H.primeBuckCounts)%nat
          ∧ ∃ n', read_array H.primeBuckCounts (Z.of_nat index + 1)
                  = Done n'))
  ∧ (∀ c, H.numBuckets t < 65521 → ∃ t', H.SymTable_expand c t = Done t')
  ∧ (∀ c, ¬ H.numBuckets t < 65521 → H.grow_if_needed c t = Done t)
  ∧ (∀ a k v, ∃ r t', H.SymTable_put a (Some t) (Some k) v = Done (r, t')).
Proof.
  intros Hs%reachable_shape. pose proof Hs as (Hn & Hlen & _).
  destruct (find_index_primes _ Hn) as (i & Hfind & Hi & Hlt & Hnext).
  split_and!.
  - done.
  - exists i. split_and!; try done. intros Hmax.
    destruct Hnext as (n' & Hread & Hi' & _); [lia|].
    split; [by apply lookup_lt_Some in Hi'|by exists n'].
  - intros [|] Hmax.
    + destruct (SymTable_expand_spec t) as (t' & Hrun & _); try done; [lia|].
      by exists t'.
    + exists t. apply SymTable_expand_no_memory; [done|lia].
  - intros c Hmax. rewrite grow_if_needed_unfold.
    destruct (Z.ltb_spec (H.numBuckets t) 65521); [done|].
    by rewrite andb_false_r.
  - intros a k v.
    destruct (SymTable_put_result a t k v Hs) as (r & t' & Hput & _).
    by exists r, t'.
Qed.

Lemma bucket_count_search_in_bounds_witness :
  H.numBuckets (demo_table 1) ∈ H.primeBuckCounts.
Proof.
  refine (proj1 (bucket_count_search_in_bounds (P := lp64_unsigned)
                   (demo_table 1) _)).
  apply (reachable_put all_ok (demo_table 0) (key_of 0) 1000 1 (demo_table 1)).
  - apply reachable_new. vm_compute. reflexivity.
  - vm_compute. reflexivity.
Defined.

(** * Null arguments *)

Section Asserts.

Lemma for_chain_no_abort {A S : Type} (l : list A)
    (body : A → S → result S) (s : S) :
  (∀ x s, body x s ≠ Abort) → for_chain l body s ≠ Abort.
Proof.
  intros Hbody. revert s. induction l as [|x l IH]; intros s; simpl; [done|].
  specialize (Hbody x s). destruct (body x s); simpl; [apply IH|done..].
Qed.

Lemma for_loop_no_abort {S : Type} (n : nat) (i : Z)
    (body : Z → S → result S) (s : S) :
  (∀ i s, body i s ≠ Abort) → for_loop n i body s ≠ Abort.
Proof.
  intros Hbody. revert i s. induction n as [|n IH]; intros i s; simpl;
    [done|].
  specialize (Hbody i s). destruct (body i s); simpl; [apply IH|done..].
Qed.

Lemma read_array_no_abort {A : Type} (arr : list A) (i : Z) :
  read_array arr i ≠ Abort.
Proof.
  unfold read_array. destruct (i <? 0); [done|].
  by destruct (arr !! Z.to_nat i).
Qed.

Lemma hash_map_live_no_abort {S : Type} (t : H.SymTable) (f : pfApply_t S)
    (extra : ptr) (s : S) :
  H.SymTable_map (Some t) (Some f) extra s ≠ Abort.
Proof.
  unfold H.SymTable_map. simpl. apply for_loop_no_abort. intros i s'.
  destruct (read_array (H.buckets t) i) as [chain| |] eqn:Hread; simpl;
    [|by apply read_array_no_abort in Hread|done].
  by apply for_chain_no_abort.
Qed.

Lemma list_map_live_no_abort {S : Type} (t : L.SymTable) (f : pfApply_t S)
    (extra : ptr) (s : S) :
  L.SymTable_map (Some t) (Some f) extra s ≠ Abort.
Proof. unfold L.SymTable_map. simpl. by apply for_chain_no_abort. Qed.

End Asserts.

(** Claim C10. In both implementations map stops in a failed assertion when
    the function pointer is null, whatever the table; it stops in an
    assertion exactly when the table or the function pointer is null, so a
    null function is neither ignored nor reported through a result. *)
Theorem map_null_function_aborts {S : Type}
    (extra : ptr) (s : S) :
  (∀ o, H.SymTable_map (S := S) o None extra s = Abort)
  ∧ (∀ o, L.SymTable_map (S := S) o None extra s = Abort)
  ∧ (∀ o pf, H.SymTable_map o pf extra s = Abort ↔ o = None ∨ pf = None)
  ∧ (∀ o pf, L.SymTable_map o pf extra s = Abort ↔ o = None ∨ pf = None)
  ∧ (∀ t f, ∃ s', L.SymTable_map (Some t) (Some f) extra s = Done s').
Proof.
  split_and!.
  - by intros [t|].
  - by intros [t|].
  - intros o pf. split.
    + intros Habort. destruct o as [t|], pf as [f|];
        [|by right|by left|by left].
      by apply hash_map_live_no_abort in Habort.
    + intros [->| ->]; [done|by destruct o].
  - intros o pf. split.
    + intros Habort. destruct o as [t|], pf as [f|];
        [|by right|by left|by left].
      by apply list_map_live_no_abort in Habort.
    + intros [->| ->]; [done|by destruct o].
  - intros t f. eexists. apply list_map_spec.
Qed.

(** Claim C4, on the code. [SymTable_free(NULL)] stops in the assertion at the
    top of the function, in both implementations: it is not the no-op that
    [symtable.h] documents. *)
Theorem free_null_aborts :
  H.SymTable_free None = Abort ∧ L.SymTable_free None = Abort.
Proof. split; reflexivity. Qed.

Lemma foldl_snoc {A B : Type} (g : A → B) (l : list A) (acc : list B) :
  foldl (λ acc x, acc ++ [g x]) acc l = acc ++ (g <$> l).
Proof.
  revert acc. induction l as [|x l IH]; intros acc; simpl.
  - by rewrite app_nil_r.
  - rewrite IH. by rewrite <- app_assoc.
Qed.

(** On a live table free releases the key of every binding. *)
Lemma SymTable_free_spec (t : H.SymTable) :
  Z.of_nat (length (H.buckets t)) = H.numBuckets t →
  H.SymTable_free (Some t) = Done (key <$> concat (H.buckets t)).
Proof.
  intros Hlen. unfold H.SymTable_free. simpl.
  rewrite (for_loop_whole_array (H.buckets t) _
             (λ chain freed,
                for_chain chain (λ b freed, Done (freed ++ [key b])) freed))
    by done.
  by rewrite for_chain_concat, for_chain_pure, (foldl_snoc key).
Qed.

(** * The two implementations side by side *)

Section Simulation.
Context {P : Platform}.
Implicit Types (lt : L.SymTable) (ht : H.SymTable) (k : string) (v : ptr).

Lemma sim_NoDup lt ht : sim lt ht → NoDup (key <$> L.firstBinding lt).
Proof. intros (_ & Hs & Hperm). rewrite Hperm. apply Hs. Qed.

Lemma sim_find lt ht k :
  sim lt ht →
  chain_find k (bindings ht) = chain_find k (L.firstBinding lt).
Proof.
  intros Hsim. pose proof (sim_NoDup _ _ Hsim). destruct Hsim as (_ & _ & Hp).
  symmetry. by apply chain_find_perm.
Qed.

Lemma perm_middle_inv (pre post front back : list Binding) (b : Binding) :
  pre ++ b :: post ≡ₚ front ++ b :: back → pre ++ post ≡ₚ front ++ back.
Proof.
  rewrite <- !Permutation_middle. apply Permutation_cons_inv.
Qed.

Lemma put_agrees lt ht (a : Alloc) (k : option string) v :
  sim lt ht → step_agrees (hash_step ht (Put a k v)) (list_step lt (Put a k v)).
Proof.
  intros Hsim. pose proof Hsim as (Hlen & Hs & Hperm).
  destruct k as [k|]; [|done]. unfold hash_step, list_step.
  destruct (SymTable_put_result a ht k v Hs) as (r & ht' & -> & Hs' & _ & Hr).
  rewrite list_put_spec, <- (sim_find lt ht k Hsim).
  assert (r = 0 ∧ bindings ht' ≡ₚ bindings ht ∧ H.length ht' = H.length ht →
          step_agrees (Done (RetInt r, ht')) (Done (RetInt 0, lt))) as Hsame.
  { intros (-> & Hp & Hl). split; [done|]. split_and!; [congruence|done|].
    by rewrite Hp. }
  destruct (chain_find k (bindings ht)); [by apply Hsame|].
  destruct (malloc_binding a && malloc_key a); [|by apply Hsame].
  destruct Hr as (-> & Hp & Hl). split; [done|]. split_and!; simpl.
  - by rewrite Hl, Hlen.
  - done.
  - by rewrite Hp, Hperm.
Qed.

Lemma get_agrees lt ht (k : option string) :
  sim lt ht → step_agrees (hash_step ht (Get k)) (list_step lt (Get k)).
Proof.
  intros Hsim. destruct k as [k|]; [|done]. unfold hash_step, list_step.
  rewrite SymTable_get_spec, list_get_spec, (sim_find lt ht k Hsim)
    by apply Hsim.
  by split.
Qed.

Lemma contains_agrees lt ht (k : option string) :
  sim lt ht →
  step_agrees (hash_step ht (Contains k)) (list_step lt (Contains k)).
Proof.
  intros Hsim. destruct k as [k|]; [|done]. unfold hash_step, list_step.
  rewrite SymTable_contains_spec, list_contains_spec,
    (sim_find lt ht k Hsim) by apply Hsim.
  by split.
Qed.

Lemma replace_agrees lt ht (k : option string) v :
  sim lt ht →
  step_agrees (hash_step ht (Replace k v)) (list_step lt (Replace k v)).
Proof.
  intros Hsim. pose proof Hsim as (Hlen & Hs & Hperm).
  destruct k as [k|]; [|done]. unfold hash_step, list_step.
  pose proof (SymTable_replace_spec ht k v Hs) as Hh.
  pose proof (list_replace_spec lt k v) as Hl.
  rewrite (sim_find lt ht k Hsim) in Hh.
  destruct (chain_find k (L.firstBinding lt)) as [b|].
  - destruct Hh as (ht' & front & back & _ & _ & _ & -> & _ & Hold & Hnew
                    & Hs' & Hlen' & _).
    destruct Hl as (pre & post & Hfb & _ & ->). simpl.
    split; [done|]. split_and!; simpl; [congruence|done|].
    rewrite Hnew, <- !Permutation_middle. f_equiv.
    apply (perm_middle_inv _ _ _ _ b). by rewrite <- Hfb, <- Hold.
  - rewrite Hh, Hl. by split.
Qed.

Lemma remove_agrees lt ht (k : option string) :
  sim lt ht →
  step_agrees (hash_step ht (Remove k)) (list_step lt (Remove k)).
Proof.
  intros Hsim. pose proof Hsim as (Hlen & Hs & Hperm).
  destruct k as [k|]; [|done]. unfold hash_step, list_step.
  pose proof (SymTable_remove_spec ht k Hs) as Hh.
  pose proof (list_remove_spec lt k) as Hl.
  rewrite (sim_find lt ht k Hsim) in Hh.
  destruct (chain_find k (L.firstBinding lt)) as [b|].
  - destruct Hh as (ht' & front & back & _ & _ & _ & -> & _ & Hold & Hnew
                    & Hs' & Hlen' & _).
    destruct Hl as (pre & post & Hfb & _ & ->). simpl.
    split; [done|]. split_and!; simpl; [congruence|done|].
    rewrite Hnew.
    apply (perm_middle_inv _ _ _ _ b). by rewrite <- Hfb, <- Hold.
  - rewrite Hh, Hl. by split.
Qed.

Lemma map_agrees lt ht (fn : bool) (extra : ptr) :
  sim lt ht →
  step_agrees (hash_step ht (Map fn extra)) (list_step lt (Map fn extra)).
Proof.
  intros (Hlen & Hs & Hperm). destruct fn; [|done].
  unfold hash_step, list_step, map_function.
  rewrite SymTable_map_spec, list_map_spec, !foldl_record_call by apply Hs.
  simpl. split; [|done]. by rewrite Hperm.
Qed.

Lemma step_agrees_all lt ht (o : op) :
  sim lt ht → step_agrees (hash_step ht o) (list_step lt o).
Proof.
  intros Hsim. destruct o.
  - by apply put_agrees.
  - by apply get_agrees.
  - by apply contains_agrees.
  - by apply replace_agrees.
  - by apply remove_agrees.
  - destruct Hsim as (Hlen & ? & ?). unfold hash_step, list_step. simpl.
    rewrite Hlen. by split.
  - by apply map_agrees.
Qed.

Lemma run_agrees lt ht (ops : list op) :
  sim lt ht →
  match run hash_step ht ops, run list_step lt ops with
  | Done (rh, ht'), Done (rl, lt') =>
      Forall2 same_observation rh rl ∧ sim lt' ht'
  | Abort, Abort => True
  | _, _ => False
  end.
Proof.
  revert lt ht. induction ops as [|o ops IH]; intros lt ht Hsim; simpl.
  - by split.
  - pose proof (step_agrees_all lt ht o Hsim) as Hstep.
    destruct (hash_step ht o) as [[oh ht']| |],
             (list_step lt o) as [[ol lt']| |]; try done. simpl.
    destruct Hstep as [Hobs Hsim']. specialize (IH lt' ht' Hsim').
    destruct (run hash_step ht' ops) as [[rh ht'']| |],
             (run list_step lt' ops) as [[rl lt'']| |]; try done. simpl.
    destruct IH. split; [by constructor|done].
Qed.

Lemma SymTable_new_eq :
  H.SymTable_new true true
  = Done (Some {| H.buckets := H.calloc_array 509;
                  H.length := 0;
                  H.numBuckets := 509 |}).
Proof. reflexivity. Qed.

Lemma sim_new ht :
  H.SymTable_new true true = Done (Some ht) →
  sim {| L.firstBinding := []; L.length := 0 |} ht.
Proof.
  intros Hnew. pose proof (shape_new ht Hnew) as Hs.
  injection Hnew as <-. split_and!; [done|done|].
  unfold bindings. simpl H.buckets. by rewrite concat_calloc.
Qed.
End Simulation.

(** Claim C8, as the code has it. Run from fresh tables, the two
    implementations return the same value from every call of put, get,
    contains, replace, remove and getLength, and map passes the same
    (key, value) pairs, each once, not necessarily in the same order; a call
    stops in an assertion in one exactly when it does in the other. *)
Theorem implementations_agree {P : Platform} (ops : list op) :
  same_outcome (Forall2 same_observation)
    (hash_session ops) (list_session ops).
Proof.
  unfold hash_session, list_session.
  pose proof (sim_new _ SymTable_new_eq) as Hsim.
  rewrite SymTable_new_eq.
  set (ht := {| H.buckets := H.calloc_array 509 |}) in *. clearbody ht.
  pose proof (run_agrees _ ht ops Hsim) as Hrun. simpl.
  destruct (run hash_step ht ops) as [[rh ht']| |],
           (run list_step _ ops) as [[rl lt']| |]; try done.
  simpl. apply Hrun.
Qed.

(** Claim C8, as stated, fails on the order of the calls of map: after
    put "a", put "b" the list passes "b" first, the hash table "a". *)
Lemma map_order_differs :
  hash_session (P := lp64_unsigned)
    [Put all_ok (Some "a"%string) 1; Put all_ok (Some "b"%string) 2; Map true 0]
  = Done [RetInt 1; RetInt 1; Calls [("a"%string, 1, 0); ("b"%string, 2, 0)]]
  ∧ list_session (P := lp64_unsigned)
      [Put all_ok (Some "a"%string) 1; Put all_ok (Some "b"%string) 2;
       Map true 0]
    = Done [RetInt 1; RetInt 1; Calls [("b"%string, 2, 0); ("a"%string, 1, 0)]]
  ∧ hash_session (P := lp64_unsigned)
      [Put all_ok (Some "a"%string) 1; Put all_ok (Some "b"%string) 2;
       Map true 0]
    ≠ list_session (P := lp64_unsigned)
        [Put all_ok (Some "a"%string) 1; Put all_ok (Some "b"%string) 2;
         Map true 0].
Proof. vm_compute. split_and!; [reflexivity|reflexivity|discriminate]. Qed.

(** * Further properties of the two implementations *)

(** ** Creation *)

(** [SymTable_new] returns NULL exactly when an allocation fails; the table it
    returns otherwise is well formed and empty, with 509 buckets in the hash
    table: [length] is 0 and no key is bound. *)
Theorem new_table_is_empty {P : Platform} :
  (∀ m c, ∃ o, H.SymTable_new m c = Done o
               ∧ (o = None ↔ m = false ∨ c = false))
  ∧ (∃ t, H.SymTable_new true true = Done (Some t)
          ∧ shape t ∧ counted t
          ∧ H.numBuckets t = 509
          ∧ bindings t = []
          ∧ H.SymTable_getLength (Some t) = Done 0
          ∧ (∀ k, H.SymTable_contains (Some t) (Some k) = Done 0
                  ∧ H.SymTable_get (Some t) (Some k) = Done NULL))
  ∧ (∀ m, ∃ o, L.SymTable_new m = Done o ∧ (o = None ↔ m = false))
  ∧ (∃ t, L.SymTable_new true = Done (Some t)
          ∧ L.firstBinding t = []
          ∧ L.SymTable_getLength (Some t) = Done 0
          ∧ (∀ k, L.SymTable_contains (Some t) (Some k) = Done 0
                  ∧ L.SymTable_get (Some t) (Some k) = Done NULL)).
Proof.
  split_and!.
  - intros [|] [|].
    + eexists. split; [apply SymTable_new_eq|]. split; [done|by intros [|]].
    + exists None. split; [reflexivity|]. split; [by right|done].
    + exists None. split; [reflexivity|]. split; [by left|done].
    + exists None. split; [reflexivity|]. split; [by left|done].
  - eexists. split; [apply SymTable_new_eq|].
    pose proof (shape_new _ SymTable_new_eq) as Hs.
    pose proof (counted_new _ SymTable_new_eq) as Hc.
    assert (bindings {| H.buckets := H.calloc_array 509; H.length := 0;
                        H.numBuckets := 509 |} = []) as Hb.
    { unfold bindings. simpl H.buckets. apply concat_calloc. }
    split_and!; [exact Hs|exact Hc|reflexivity|exact Hb|reflexivity|].
    intros k. by rewrite SymTable_contains_spec, SymTable_get_spec, Hb.
  - intros [|].
    + eexists. split; [reflexivity|]. split; [done|done].
    + exists None. by split.
  - eexists. split; [reflexivity|]. by split_and!.
Qed.

(** ** Keys that are bound and keys that are not *)

(** Contains scans one chain only and yet answers for the whole table: it
    returns 1 when some binding of the table has the key and 0 otherwise,
    in both implementations. *)
Theorem contains_answers_for_the_table {P : Platform} (k : string) :
  (∀ t : H.SymTable,
     shape t →
     (H.SymTable_contains (Some t) (Some k) = Done 1
      ↔ k ∈ key <$> concat (H.buckets t))
     ∧ (H.SymTable_contains (Some t) (Some k) = Done 0
        ↔ k ∉ key <$> concat (H.buckets t)))
  ∧ (∀ t : L.SymTable,
       (L.SymTable_contains (Some t) (Some k) = Done 1
        ↔ k ∈ key <$> L.firstBinding t)
       ∧ (L.SymTable_contains (Some t) (Some k) = Done 0
          ↔ k ∉ key <$> L.firstBinding t)).
Proof.
  assert (∀ l : list Binding,
            (Done (match chain_find k l with Some _ => 1 | None => 0 end)
             = Done 1 ↔ k ∈ key <$> l)
            ∧ (Done (match chain_find k l with Some _ => 1 | None => 0 end)
               = Done 0 ↔ k ∉ key <$> l)) as Hl.
  { intros l. destruct (chain_find k l) as [b|] eqn:Hf.
    - apply chain_find_Some in Hf as [Hin <-].
      apply (list_elem_of_fmap_2 key) in Hin.
      split; split; done.
    - apply chain_find_None in Hf. split; split; done. }
  split.
  - intros t Hs. rewrite SymTable_contains_spec by done. apply Hl.
  - intros t. rewrite list_contains_spec. apply Hl.
Qed.

Lemma contains_answers_for_the_table_witness :
  H.SymTable_contains (P := lp64_unsigned)
    (Some (demo_table 3)) (Some "aab"%string) = Done 1
  ↔ "aab"%string ∈ key <$> concat (H.buckets (demo_table 3)).
Proof.
  refine (proj1 (proj1 (contains_answers_for_the_table (P := lp64_unsigned)
                          "aab") (demo_table 3) _)).
  by_evaluation.
Defined.

(** With a key that is not bound, get, replace and remove return NULL, and
    replace and remove leave the table as it is, in both implementations. *)
Theorem missing_key_returns_null {P : Platform} (k : string) (v : ptr) :
  (∀ t : H.SymTable,
     shape t →
     H.SymTable_contains (Some t) (Some k) = Done 0 →
     H.SymTable_get (Some t) (Some k) = Done NULL
     ∧ H.SymTable_replace (Some t) (Some k) v = Done (NULL, t)
     ∧ H.SymTable_remove (Some t) (Some k) = Done (NULL, t))
  ∧ (∀ t : L.SymTable,
       L.SymTable_contains (Some t) (Some k) = Done 0 →
       L.SymTable_get (Some t) (Some k) = Done NULL
       ∧ L.SymTable_replace (Some t) (Some k) v = Done (NULL, t)
       ∧ L.SymTable_remove (Some t) (Some k) = Done (NULL, t)).
Proof.
  split.
  - intros t Hs Hc. rewrite SymTable_contains_spec in Hc by done.
    pose proof (SymTable_replace_spec t k v Hs) as Hrep.
    pose proof (SymTable_remove_spec t k Hs) as Hrem.
    rewrite SymTable_get_spec by done.
    by destruct (chain_find k (bindings t)).
  - intros t Hc. rewrite list_contains_spec in Hc.
    pose proof (list_replace_spec t k v) as Hrep.
    pose proof (list_remove_spec t k) as Hrem.
    rewrite list_get_spec.
    by destruct (chain_find k (L.firstBinding t)).
Qed.

Lemma missing_key_returns_null_witness :
  H.SymTable_remove (P := lp64_unsigned)
    (Some (demo_table 3)) (Some "zzz"%string) = Done (NULL, demo_table 3)
  ∧ L.SymTable_remove (P := lp64_unsigned)
      (Some (demo_list 3)) (Some "zzz"%string) = Done (NULL, demo_list 3).
Proof.
  destruct (missing_key_returns_null (P := lp64_unsigned) "zzz" 7)
    as [Hhash Hlist].
  split.
  - refine (proj2 (proj2 (Hhash (demo_table 3) _ _)));
      [by_evaluation|vm_compute; reflexivity].
  - refine (proj2 (proj2 (Hlist (demo_list 3) _))). vm_compute. reflexivity.
Defined.

(** ** Replace *)

(** Replace with a bound key returns the value that get returned, makes get
    return the new value, and changes nothing else: [length], the bucket
    count, the key's place in its chain and the values of the other keys
    stay.  In both implementations. *)
Theorem replace_bound_key {P : Platform} (k : string) (v : ptr) :
  (∀ t : H.SymTable,
     shape t →
     H.SymTable_contains (Some t) (Some k) = Done 1 →
     ∃ old t' (j : nat) pre post,
       H.SymTable_replace (Some t) (Some k) v = Done (old, t')
       ∧ H.SymTable_get (Some t) (Some k) = Done old
       ∧ H.SymTable_get (Some t') (Some k) = Done v
       ∧ H.SymTable_contains (Some t') (Some k) = Done 1
       ∧ H.SymTable_getLength (Some t') = H.SymTable_getLength (Some t)
       ∧ H.numBuckets t' = H.numBuckets t
       ∧ H.buckets t !! j = Some (pre ++ {| key := k; value := old |} :: post)
       ∧ H.buckets t'
         = <[j := pre ++ {| key := k; value := v |} :: post]> (H.buckets t)
       ∧ (∀ k', k' ≠ k →
                H.SymTable_get (Some t') (Some k')
                = H.SymTable_get (Some t) (Some k')
                ∧ H.SymTable_contains (Some t') (Some k')
                  = H.SymTable_contains (Some t) (Some k'))
       ∧ shape t')
  ∧ (∀ t : L.SymTable,
       list_shape t →
       L.SymTable_contains (Some t) (Some k) = Done 1 →
       ∃ old t' pre post,
         L.SymTable_replace (Some t) (Some k) v = Done (old, t')
         ∧ L.SymTable_get (Some t) (Some k) = Done old
         ∧ L.SymTable_get (Some t') (Some k) = Done v
         ∧ L.SymTable_contains (Some t') (Some k) = Done 1
         ∧ L.SymTable_getLength (Some t') = L.SymTable_getLength (Some t)
         ∧ L.firstBinding t = pre ++ {| key := k; value := old |} :: post
         ∧ L.firstBinding t' = pre ++ {| key := k; value := v |} :: post
         ∧ (∀ k', k' ≠ k →
                  L.SymTable_get (Some t') (Some k')
                  = L.SymTable_get (Some t) (Some k')
                  ∧ L.SymTable_contains (Some t') (Some k')
                    = L.SymTable_contains (Some t) (Some k'))
         ∧ list_shape t').
Proof.
  split.
  - intros t Hs Hbound%SymTable_contains_1; [|done].
    pose proof (SymTable_replace_spec t k v Hs) as Hspec.
    destruct Hbound as [b Hb]. rewrite Hb in Hspec.
    destruct Hspec as (t' & front & back & j & pre & post & Hrep & Hkey & Hold
                       & Hnew & Hs' & Hlen & Hnb & Hj & Hbs).
    subst k.
    pose proof (proj2 (proj2 (proj2 Hs))) as Hnd. rewrite Hold in Hnd.
    assert ({| key := key b; value := value b |} = b) as Hbk by (by destruct b).
    exists (value b), t', j, pre, post. split_and!; try done.
    + by rewrite SymTable_get_spec, Hb.
    + rewrite SymTable_get_spec, Hnew, chain_find_with_value by done.
      by rewrite decide_True.
    + rewrite SymTable_contains_spec, Hnew, chain_find_with_value by done.
      by rewrite decide_True.
    + unfold H.SymTable_getLength. simpl. by rewrite Hlen.
    + by rewrite Hbk.
    + intros k' Hk'.
      rewrite !SymTable_get_spec, !SymTable_contains_spec, Hnew, Hold by done.
      rewrite chain_find_with_value by done.
      by rewrite decide_False.
  - intros t Hs Hbound%list_contains_1.
    pose proof (list_replace_spec t k v) as Hspec.
    destruct Hbound as [b Hb]. rewrite Hb in Hspec.
    destruct Hspec as (pre & post & Hold & Hkey & Hrep). subst k.
    unfold list_shape in Hs. rewrite Hold in Hs.
    assert ({| key := key b; value := value b |} = b) as Hbk by (by destruct b).
    eexists (value b), _, pre, post. split; [exact Hrep|]. simpl.
    split_and!; try done.
    + by rewrite list_get_spec, Hb.
    + rewrite list_get_spec. simpl.
      rewrite chain_find_with_value by done. by rewrite decide_True.
    + rewrite list_contains_spec. simpl.
      rewrite chain_find_with_value by done. by rewrite decide_True.
    + by rewrite Hbk.
    + intros k' Hk'. rewrite !list_get_spec, !list_contains_spec, Hold. simpl.
      rewrite chain_find_with_value by done.
      by rewrite decide_False.
    + unfold list_shape. simpl. by rewrite keys_with_value.
Qed.

Lemma replace_bound_key_witness :
  (∃ old t',
     H.SymTable_replace (P := lp64_unsigned)
       (Some (demo_table 3)) (Some "aab"%string) 9 = Done (old, t')
     ∧ H.SymTable_get (P := lp64_unsigned) (Some t') (Some "aab"%string)
       = Done 9)
  ∧ (∃ old t',
       L.SymTable_replace (Some (demo_list 3)) (Some "aab"%string) 9
       = Done (old, t')
       ∧ L.SymTable_get (Some t') (Some "aab"%string) = Done 9).
Proof.
  destruct (replace_bound_key (P := lp64_unsigned) "aab" 9) as [Hhash Hlist].
  split.
  - destruct (Hhash (demo_table 3))
      as (old & t' & _ & _ & _ & Hrep & _ & Hget & _).
    + by_evaluation.
    + vm_compute. reflexivity.
    + exists old, t'. split; [exact Hrep|exact Hget].
  - destruct (Hlist (demo_list 3))
      as (old & t' & _ & _ & Hrep & _ & Hget & _).
    + by_evaluation.
    + vm_compute. reflexivity.
    + exists old, t'. split; [exact Hrep|exact Hget].
Defined.

(** ** Put *)

Section PutFacts.
Context {P : Platform}.

Lemma size_add_1 (n : Z) :
  0 <= n → n + 1 < 2 ^ size_bits → size_add n 1 = n + 1.
Proof. intros. unfold size_add. apply size_wrap_small. lia. Qed.

Lemma counted_nonneg (t : H.SymTable) : counted t → 0 <= H.length t.
Proof. intros [-> _]. lia. Qed.

End PutFacts.

(** Put with a key that is not bound, when both allocations succeed, returns
    1 and binds the key: [length] grows by one, get returns the value,
    contains returns 1, every other key answers as before, and the table
    stays well formed.  In both implementations. *)
Theorem put_fresh_key {P : Platform} (a : Alloc) (k : string) (v : ptr) :
  malloc_binding a = true → malloc_key a = true →
  (∀ t : H.SymTable,
     shape t → counted t → H.length t + 1 < 2 ^ size_bits →
     H.SymTable_contains (Some t) (Some k) = Done 0 →
     ∃ t', H.SymTable_put a (Some t) (Some k) v = Done (1, t')
           ∧ H.SymTable_getLength (Some t') = Done (H.length t + 1)
           ∧ H.SymTable_get (Some t') (Some k) = Done v
           ∧ H.SymTable_contains (Some t') (Some k) = Done 1
           ∧ (∀ k', k' ≠ k →
                    H.SymTable_get (Some t') (Some k')
                    = H.SymTable_get (Some t) (Some k')
                    ∧ H.SymTable_contains (Some t') (Some k')
                      = H.SymTable_contains (Some t) (Some k'))
           ∧ shape t' ∧ counted t')
  ∧ (∀ t : L.SymTable,
       list_shape t → list_counted t → L.length t + 1 < 2 ^ size_bits →
       L.SymTable_contains (Some t) (Some k) = Done 0 →
       ∃ t', L.SymTable_put a (Some t) (Some k) v = Done (1, t')
             ∧ L.firstBinding t'
               = {| key := k; value := v |} :: L.firstBinding t
             ∧ L.SymTable_getLength (Some t') = Done (L.length t + 1)
             ∧ L.SymTable_get (Some t') (Some k) = Done v
             ∧ L.SymTable_contains (Some t') (Some k) = Done 1
             ∧ (∀ k', k' ≠ k →
                      L.SymTable_get (Some t') (Some k')
                      = L.SymTable_get (Some t) (Some k')
                      ∧ L.SymTable_contains (Some t') (Some k')
                        = L.SymTable_contains (Some t) (Some k'))
             ∧ list_shape t' ∧ list_counted t').
Proof.
  intros Hmb Hmk. split.
  - intros t Hs Hc Hroom Hfree.
    rewrite SymTable_contains_spec in Hfree by done.
    destruct (SymTable_put_result a t k v Hs) as (r & t' & Hput & Hs' & _ & Hr).
    pose proof (counted_put a t k v r t' Hs Hc Hroom Hput) as Hc'.
    destruct (chain_find k (bindings t)) eqn:Hfind; [done|].
    rewrite Hmb, Hmk in Hr. destruct Hr as (-> & Hperm & Hlen).
    pose proof (proj2 (proj2 (proj2 Hs'))) as Hnd.
    exists t'. split_and!; try done.
    + unfold H.SymTable_getLength. simpl. rewrite Hlen.
      by rewrite size_add_1 by (by apply counted_nonneg || done).
    + rewrite SymTable_get_spec, (chain_find_added _ _ k k v Hnd Hperm) by done.
      by rewrite decide_True.
    + rewrite SymTable_contains_spec, (chain_find_added _ _ k k v Hnd Hperm)
        by done.
      by rewrite decide_True.
    + intros k' Hk'.
      rewrite !SymTable_get_spec, !SymTable_contains_spec,
        (chain_find_added _ _ k k' v Hnd Hperm) by done.
      by rewrite decide_False.
  - intros t Hs [Hc Hlt] Hroom Hfree. rewrite list_contains_spec in Hfree.
    rewrite list_put_spec, Hmb, Hmk.
    destruct (chain_find k (L.firstBinding t)) eqn:Hfind; [done|].
    eexists. split; [reflexivity|]. simpl.
    assert (size_add (L.length t) 1 = L.length t + 1) as Hlen.
    { apply size_add_1; lia. }
    split_and!; try done.
    + unfold L.SymTable_getLength. simpl. by rewrite Hlen.
    + rewrite list_get_spec. simpl L.firstBinding. rewrite chain_find_cons.
      by rewrite decide_True.
    + rewrite list_contains_spec. simpl L.firstBinding.
      rewrite chain_find_cons. by rewrite decide_True.
    + intros k' Hk'. rewrite !list_get_spec, !list_contains_spec.
      simpl L.firstBinding. rewrite chain_find_cons. by rewrite decide_False.
    + unfold list_shape. simpl L.firstBinding. rewrite fmap_cons.
      apply NoDup_cons.
      split; [by apply chain_find_None|done].
    + unfold list_counted. simpl. rewrite Hlen. split; lia.
Qed.

Lemma put_fresh_key_witness :
  (∃ t', H.SymTable_put (P := lp64_unsigned) all_ok
           (Some (demo_table 510)) (Some "new"%string) 7 = Done (1, t')
         ∧ H.SymTable_get (P := lp64_unsigned) (Some t') (Some "new"%string)
           = Done 7)
  ∧ (∃ t', L.SymTable_put (P := lp64_unsigned) all_ok
             (Some (demo_list 3)) (Some "new"%string) 7 = Done (1, t')
           ∧ L.SymTable_get (Some t') (Some "new"%string) = Done 7).
Proof.
  destruct (put_fresh_key (P := lp64_unsigned) all_ok "new" 7 eq_refl eq_refl)
    as [Hhash Hlist].
  split.
  - destruct (Hhash (demo_table 510)) as (t' & Hput & _ & Hget & _).
    + by_evaluation.
    + split; vm_compute; reflexivity.
    + vm_compute. reflexivity.
    + vm_compute. reflexivity.
    + exists t'. split; [exact Hput|exact Hget].
  - destruct (Hlist (demo_list 3)) as (t' & Hput & _ & _ & Hget & _).
    + by_evaluation.
    + split; vm_compute; reflexivity.
    + vm_compute. reflexivity.
    + vm_compute. reflexivity.
    + exists t'. split; [exact Hput|exact Hget].
Defined.

(** Put returns 0 or 1, and 1 exactly when the key was not bound and both
    allocations succeeded; when it returns 0, for a bound key or for want of
    memory alike, [length] and the answers of get and contains are as before
    (the list is the same object).  In both implementations. *)
Theorem put_return_value {P : Platform} (a : Alloc) (k : string) (v : ptr) :
  (∀ t : H.SymTable,
     shape t →
     ∃ r t', H.SymTable_put a (Some t) (Some k) v = Done (r, t')
             ∧ (r = 0 ∨ r = 1)
             ∧ (r = 1 ↔ H.SymTable_contains (Some t) (Some k) = Done 0
                        ∧ malloc_binding a = true ∧ malloc_key a = true)
             ∧ (r = 0 →
                H.SymTable_getLength (Some t') = H.SymTable_getLength (Some t)
                ∧ ∀ k', H.SymTable_get (Some t') (Some k')
                        = H.SymTable_get (Some t) (Some k')
                        ∧ H.SymTable_contains (Some t') (Some k')
                          = H.SymTable_contains (Some t) (Some k')))
  ∧ (∀ t : L.SymTable,
       ∃ r t', L.SymTable_put a (Some t) (Some k) v = Done (r, t')
               ∧ (r = 0 ∨ r = 1)
               ∧ (r = 1 ↔ L.SymTable_contains (Some t) (Some k) = Done 0
                          ∧ malloc_binding a = true ∧ malloc_key a = true)
               ∧ (r = 0 → t' = t)).
Proof.
  split.
  - intros t Hs.
    destruct (SymTable_put_result a t k v Hs) as (r & t' & Hput & Hs' & _ & Hr).
    exists r, t'. rewrite SymTable_contains_spec by done.
    assert (r = 0 ∧ bindings t' ≡ₚ bindings t ∧ H.length t' = H.length t →
            H.SymTable_getLength (Some t') = H.SymTable_getLength (Some t)
            ∧ ∀ k', H.SymTable_get (Some t') (Some k')
                    = H.SymTable_get (Some t) (Some k')
                    ∧ H.SymTable_contains (Some t') (Some k')
                      = H.SymTable_contains (Some t) (Some k')) as Hsame.
    { intros (_ & Hperm & Hlen). split.
      - unfold H.SymTable_getLength. simpl. by rewrite Hlen.
      - intros k'. split;
          [by apply SymTable_get_perm|by apply SymTable_contains_perm]. }
    destruct (chain_find k (bindings t)).
    { destruct Hr as (-> & Hr). split_and!; [done|by left| |by intros _; apply Hsame].
      split; [done|]. by intros [? _]. }
    destruct (malloc_binding a), (malloc_key a); simpl in Hr.
    + destruct Hr as (-> & _). split_and!; [done|by right|done|done].
    + destruct Hr as (-> & Hr). split_and!; [done|by left| |by intros _; apply Hsame].
      split; [done|]. by intros (_ & _ & ?).
    + destruct Hr as (-> & Hr). split_and!; [done|by left| |by intros _; apply Hsame].
      split; [done|]. by intros (_ & ? & _).
    + destruct Hr as (-> & Hr). split_and!; [done|by left| |by intros _; apply Hsame].
      split; [done|]. by intros (_ & ? & _).
  - intros t. rewrite list_put_spec, list_contains_spec.
    destruct (chain_find k (L.firstBinding t)).
    { exists 0, t. split_and!; [done|by left| |done].
      split; [done|]. by intros [? _]. }
    destruct (malloc_binding a), (malloc_key a); simpl.
    + eexists 1, _. split_and!; [done|by right|done|done].
    + exists 0, t. split_and!; [done|by left| |done].
      split; [done|]. by intros (_ & _ & ?).
    + exists 0, t. split_and!; [done|by left| |done].
      split; [done|]. by intros (_ & ? & _).
    + exists 0, t. split_and!; [done|by left| |done].
      split; [done|]. by intros (_ & ? & _).
Qed.

Lemma put_return_value_witness :
  ∃ r t',
    H.SymTable_put (P := lp64_unsigned)
      {| calloc_buckets := true; malloc_binding := true; malloc_key := false |}
      (Some (demo_table 3)) (Some "new"%string) 7 = Done (r, t')
    ∧ (r = 0 ∨ r = 1).
Proof.
  destruct (proj1 (put_return_value (P := lp64_unsigned)
                     {| calloc_buckets := true; malloc_binding := true;
                        malloc_key := false |} "new" 7) (demo_table 3))
    as (r & t' & Hput & Hr & _).
  - by_evaluation.
  - exists r, t'. split; [exact Hput|exact Hr].
Defined.

(** ** The expansion, seen from put *)

(** Whether the allocation of the larger bucket array succeeds makes no
    difference to the caller of put: with the same answers for the other two
    allocations, put returns the same value and leaves the same [length] and
    the same answers of get and contains; when the allocation fails the
    bucket count stays. *)
Theorem growth_failure_is_silent {P : Platform}
    (t : H.SymTable) (a a' : Alloc) (k : string) (v : ptr) :
  shape t →
  malloc_binding a = malloc_binding a' →
  malloc_key a = malloc_key a' →
  ∃ r t1 t2,
    H.SymTable_put a (Some t) (Some k) v = Done (r, t1)
    ∧ H.SymTable_put a' (Some t) (Some k) v = Done (r, t2)
    ∧ H.SymTable_getLength (Some t1) = H.SymTable_getLength (Some t2)
    ∧ (∀ k', H.SymTable_get (Some t1) (Some k')
             = H.SymTable_get (Some t2) (Some k')
             ∧ H.SymTable_contains (Some t1) (Some k')
               = H.SymTable_contains (Some t2) (Some k'))
    ∧ (calloc_buckets a = false → H.numBuckets t1 = H.numBuckets t).
Proof.
  intros Hs Hmb Hmk.
  destruct (SymTable_put_result a t k v Hs) as (r & t1 & Hput & Hs1 & Hnb & Hr).
  destruct (SymTable_put_result a' t k v Hs)
    as (r' & t2 & Hput' & Hs2 & _ & Hr').
  rewrite <- Hmb, <- Hmk in Hr'.
  assert (r = r' ∧ bindings t1 ≡ₚ bindings t2 ∧ H.length t1 = H.length t2)
    as (<- & Hperm & Hlen).
  { destruct (chain_find k (bindings t)).
    - destruct Hr as (-> & -> & ->), Hr' as (-> & -> & ->). done.
    - destruct (malloc_binding a && malloc_key a);
        destruct Hr as (-> & -> & ->), Hr' as (-> & -> & ->); done. }
  exists r, t1, t2. split_and!; try done.
  - unfold H.SymTable_getLength. simpl. by rewrite Hlen.
  - intros k'. split;
      [symmetry; by apply SymTable_get_perm
      |symmetry; by apply SymTable_contains_perm].
  - intros Hc. unfold grows in Hnb. rewrite Hc, andb_false_r in Hnb. done.
Qed.

Lemma growth_failure_is_silent_witness :
  ∃ r t1 t2,
    H.SymTable_put (P := lp64_unsigned) all_ok
      (Some (demo_table 510)) (Some "new"%string) 7 = Done (r, t1)
    ∧ H.SymTable_put (P := lp64_unsigned)
        {| calloc_buckets := false; malloc_binding := true;
           malloc_key := true |}
        (Some (demo_table 510)) (Some "new"%string) 7 = Done (r, t2)
    ∧ H.SymTable_getLength (Some t1) = H.SymTable_getLength (Some t2).
Proof.
  destruct (growth_failure_is_silent (P := lp64_unsigned) (demo_table 510)
              all_ok
              {| calloc_buckets := false; malloc_binding := true;
                 malloc_key := true |} "new" 7)
    as (r & t1 & t2 & Hput & Hput' & Hlen & _).
  - by_evaluation.
  - reflexivity.
  - reflexivity.
  - exists r, t1, t2. split; [exact Hput|]. split; [exact Hput'|exact Hlen].
Defined.

(** The bucket count never shrinks: put leaves it or moves it to a larger
    element of [primeBuckCounts]; replace and remove leave it. *)
Theorem bucket_count_never_shrinks {P : Platform}
    (t : H.SymTable) (k : string) (v : ptr) :
  shape t →
  (∀ a r t', H.SymTable_put a (Some t) (Some k) v = Done (r, t') →
             H.numBuckets t <= H.numBuckets t'
             ∧ H.numBuckets t' ∈ H.primeBuckCounts)
  ∧ (∀ old t', H.SymTable_replace (Some t) (Some k) v = Done (old, t') →
               H.numBuckets t' = H.numBuckets t)
  ∧ (∀ removed t', H.SymTable_remove (Some t) (Some k) = Done (removed, t') →
                   H.numBuckets t' = H.numBuckets t).
Proof.
  intros Hs. split_and!.
  - intros a r t' Hput.
    destruct (SymTable_put_result a t k v Hs)
      as (r' & t'' & Hput' & Hs' & Hnb & _).
    rewrite Hput in Hput'. injection Hput' as <- <-.
    split; [|apply Hs'].
    destruct (grows (calloc_buckets a) t); [|lia].
    apply next_prime_lt in Hnb. lia.
  - intros old t' Hrep. pose proof (SymTable_replace_spec t k v Hs) as Hspec.
    destruct (chain_find k (bindings t)).
    + destruct Hspec as (t'' & ? & ? & ? & ? & ? & Hrep' & _ & _ & _ & _ & _
                         & Hnb & _).
      rewrite Hrep in Hrep'. by injection Hrep' as _ <-.
    + rewrite Hrep in Hspec. by injection Hspec as _ ->.
  - intros removed t' Hrem. pose proof (SymTable_remove_spec t k Hs) as Hspec.
    destruct (chain_find k (bindings t)).
    + destruct Hspec as (t'' & ? & ? & ? & ? & ? & Hrem' & _ & _ & _ & _ & _
                         & Hnb & _).
      rewrite Hrem in Hrem'. by injection Hrem' as _ <-.
    + rewrite Hrem in Hspec. by injection Hspec as _ ->.
Qed.

Lemma bucket_count_never_shrinks_witness :
  H.numBuckets (demo_table 510) <= H.numBuckets (demo_table 511)
  ∧ H.numBuckets (demo_table 511) ∈ H.primeBuckCounts.
Proof.
  refine (proj1 (bucket_count_never_shrinks (P := lp64_unsigned)
                   (demo_table 510) (key_of 510) 1510 _)
            all_ok 1 (demo_table 511) _).
  - by_evaluation.
  - vm_compute. reflexivity.
Defined.

(** [SymTable_expand] relies on its caller: with a bucket count that is not in
    [primeBuckCounts] its search runs past the end of the array, and with the
    last bucket count, 65521, it reads the element after the last one.  Put
    calls it in neither case. *)
Theorem expand_needs_the_guard_of_put {P : Platform}
    (c : bool) (t : H.SymTable) :
  (H.numBuckets t ∉ H.primeBuckCounts → H.SymTable_expand c t = Undefined)
  ∧ (H.numBuckets t = 65521 → H.SymTable_expand c t = Undefined)
  ∧ (H.numBuckets t = 65521 → H.grow_if_needed c t = Done t)
  ∧ (shape t → ∃ t', H.grow_if_needed c t = Done t').
Proof.
  split_and!.
  - intros Hout. unfold H.SymTable_expand.
    assert (H.find_index H.primeBuckCounts 0 (H.numBuckets t) = Undefined)
      as ->; [|done].
    revert Hout. generalize 0. generalize (H.numBuckets t).
    induction H.primeBuckCounts as [|p arr IH]; intros n i Hout; [done|].
    apply not_elem_of_cons in Hout as [Hne Hout]. simpl.
    destruct (Z.eqb_spec p n); [done|]. simpl. by apply IH.
  - intros Hn. unfold H.SymTable_expand. by rewrite Hn.
  - intros Hn. rewrite grow_if_needed_unfold, Hn. by rewrite andb_false_r.
  - intros Hs. destruct (grow_if_needed_spec c t Hs) as (t' & Hgrow & _).
    by exists t'.
Qed.

Lemma expand_needs_the_guard_of_put_witness :
  H.SymTable_expand (P := lp64_unsigned) true
    {| H.buckets := []; H.length := 0; H.numBuckets := 510 |} = Undefined.
Proof.
  refine (proj1 (expand_needs_the_guard_of_put (P := lp64_unsigned) true
                   {| H.buckets := []; H.length := 0; H.numBuckets := 510 |})
            _).
  by_evaluation.
Defined.

(** ** Put and remove *)

(** Removing a key right after a successful put of it undoes the put: remove
    returns the value put, and [length] and the answers of get and contains
    are those before the put; the list is the same object again, and so is
    the hash table unless the put expanded it. *)
Theorem put_then_remove_restores {P : Platform}
    (a : Alloc) (k : string) (v : ptr) :
  (∀ t t1 : H.SymTable,
     shape t → counted t → H.length t + 1 < 2 ^ size_bits →
     H.SymTable_put a (Some t) (Some k) v = Done (1, t1) →
     ∃ t2, H.SymTable_remove (Some t1) (Some k) = Done (v, t2)
           ∧ H.SymTable_getLength (Some t2) = H.SymTable_getLength (Some t)
           ∧ (∀ k', H.SymTable_get (Some t2) (Some k')
                    = H.SymTable_get (Some t) (Some k')
                    ∧ H.SymTable_contains (Some t2) (Some k')
                      = H.SymTable_contains (Some t) (Some k'))
           ∧ (grows (calloc_buckets a) t = false → t2 = t))
  ∧ (∀ t t1 : L.SymTable,
       list_counted t → L.length t + 1 < 2 ^ size_bits →
       L.SymTable_put a (Some t) (Some k) v = Done (1, t1) →
       L.SymTable_remove (Some t1) (Some k) = Done (v, t)).
Proof.
  split.
  - intros t t1 Hs Hc Hroom Hput.
    pose proof (counted_nonneg t Hc) as Hpos.
    destruct (SymTable_put_spec a t k v Hs)
      as (t0 & j & chain & _ & Hs0 & Hlen0 & Hperm0 & Hcase & Hj & Hchain
          & Hput').
    destruct (SymTable_put_result a t k v Hs) as (r & t1' & Hput'' & Hs1 & _ & Hr).
    rewrite Hput in Hput', Hput''. injection Hput'' as <- <-.
    destruct (chain_find k (bindings t)) eqn:Hfind; [by destruct Hr|].
    destruct (malloc_binding a && malloc_key a); [|by destruct Hr].
    destruct Hr as (_ & Hperm & Hlen). injection Hput' as Ht1.
    pose proof (proj2 (proj2 (proj2 Hs1))) as Hnd.
    pose proof (SymTable_remove_spec t1 k Hs1) as Hrem.
    rewrite (chain_find_added _ _ k k v Hnd Hperm), decide_True in Hrem by done.
    destruct Hrem as (t2 & front & back & _ & _ & _ & Hrem & _ & Hold & Hnew
                      & Hs2 & Hlen2 & _).
    simpl in Hrem. rewrite Hold in Hnd.
    assert (∀ k', chain_find k' (bindings t2) = chain_find k' (bindings t))
      as Hsame.
    { intros k'. rewrite Hnew, (chain_find_without _ _ _ _ Hnd). simpl.
      rewrite <- Hold, (chain_find_added _ _ k k' v
                          (proj2 (proj2 (proj2 Hs1))) Hperm).
      by case_decide; subst. }
    assert (H.length t2 = H.length t) as Hlen'.
    { rewrite Hlen2, Hlen, size_add_1 by done. unfold size_sub.
      rewrite size_wrap_small; [lia|]. destruct Hc. lia. }
    exists t2. split_and!; [done| | |].
    + unfold H.SymTable_getLength. simpl. by rewrite Hlen'.
    + intros k'.
      by rewrite !SymTable_get_spec, !SymTable_contains_spec, Hsame by done.
    + intros Hg. rewrite Hg in Hcase. subst t0.
      assert (H.SymTable_remove (Some t1) (Some k) = Done (v, t)) as Hdirect.
      { pose proof (lookup_lt_Some _ _ _ Hchain) as Hlt.
        rewrite Ht1. unfold H.SymTable_remove. simpl.
        rewrite SymTable_hash_Some, Hj by (apply shape_positive in Hs; lia).
        simpl.
        rewrite (read_array_lookup _ j ({| key := k; value := v |} :: chain))
          by (by rewrite list_lookup_insert_eq).
        simpl. rewrite strcmp_zero, bool_decide_true by done.
        rewrite write_array_Done by (rewrite length_insert; lia). simpl.
        rewrite Nat2Z.id, list_insert_insert_eq, list_insert_id by done.
        rewrite size_add_1 by done. unfold size_sub.
        rewrite size_wrap_small by (destruct Hc; lia).
        replace (H.length t + 1 - 1) with (H.length t) by lia.
        by destruct t. }
      rewrite Hrem in Hdirect. by injection Hdirect.
  - intros t t1 [Hc Hlt] Hroom Hput. rewrite list_put_spec in Hput.
    destruct (chain_find k (L.firstBinding t)); [done|].
    destruct (malloc_binding a && malloc_key a); [|done].
    injection Hput as <-. unfold L.SymTable_remove. simpl.
    rewrite strcmp_zero, bool_decide_true by done. simpl.
    rewrite size_add_1 by lia. unfold size_sub.
    rewrite size_wrap_small by lia.
    replace (L.length t + 1 - 1) with (L.length t) by lia.
    by destruct t.
Qed.

Lemma put_then_remove_restores_witness :
  (∃ t2, H.SymTable_remove (P := lp64_unsigned)
           (Some (demo_table 4)) (Some "aad"%string) = Done (1003, t2)
         ∧ H.SymTable_getLength (Some t2)
           = H.SymTable_getLength (Some (demo_table 3)))
  ∧ L.SymTable_remove (P := lp64_unsigned)
      (Some (demo_list 4)) (Some "aad"%string) = Done (1003, demo_list 3).
Proof.
  destruct (put_then_remove_restores (P := lp64_unsigned) all_ok "aad" 1003)
    as [Hhash Hlist].
  split.
  - destruct (Hhash (demo_table 3) (demo_table 4))
      as (t2 & Hrem & Hlen & _).
    + by_evaluation.
    + split; vm_compute; reflexivity.
    + vm_compute. reflexivity.
    + vm_compute. reflexivity.
    + exists t2. split; [exact Hrem|exact Hlen].
  - apply (Hlist (demo_list 3) (demo_list 4)).
    + split; vm_compute; reflexivity.
    + vm_compute. reflexivity.
    + vm_compute. reflexivity.
Defined.

(** ** Free *)

Lemma list_free_spec (t : L.SymTable) :
  L.SymTable_free (Some t) = Done (key <$> L.firstBinding t).
Proof.
  unfold L.SymTable_free. simpl.
  by rewrite for_chain_pure, (foldl_snoc key).
Qed.

(** Free of a live table releases the key copy of every binding exactly once:
    as many keys as [length], all different, and exactly the keys for which
    contains returns 1.  In both implementations. *)
Theorem free_releases_every_key {P : Platform} :
  (∀ t : H.SymTable,
     shape t → counted t →
     ∃ freed, H.SymTable_free (Some t) = Done freed
              ∧ NoDup freed
              ∧ H.SymTable_getLength (Some t) = Done (Z.of_nat (length freed))
              ∧ ∀ k, k ∈ freed
                     ↔ H.SymTable_contains (Some t) (Some k) = Done 1)
  ∧ (∀ t : L.SymTable,
       list_shape t → list_counted t →
       ∃ freed, L.SymTable_free (Some t) = Done freed
                ∧ NoDup freed
                ∧ L.SymTable_getLength (Some t)
                  = Done (Z.of_nat (length freed))
                ∧ ∀ k, k ∈ freed
                       ↔ L.SymTable_contains (Some t) (Some k) = Done 1).
Proof.
  split.
  - intros t Hs [Hc _]. pose proof Hs as (_ & Hlen & _ & Hnd).
    exists (key <$> concat (H.buckets t)). split_and!.
    + by apply SymTable_free_spec.
    + done.
    + unfold H.SymTable_getLength. simpl. rewrite length_fmap. by rewrite Hc.
    + intros k. rewrite SymTable_contains_1 by done. fold (bindings t).
      destruct (chain_find k (bindings t)) as [b|] eqn:Hf.
      * apply chain_find_Some in Hf as [Hin <-].
        split; [by eexists|]. intros _. by apply list_elem_of_fmap_2.
      * apply chain_find_None in Hf. split; [done|]. by intros [? ?].
  - intros t Hs [Hc _]. exists (key <$> L.firstBinding t). split_and!.
    + apply list_free_spec.
    + done.
    + unfold L.SymTable_getLength. simpl. rewrite length_fmap. by rewrite Hc.
    + intros k. rewrite list_contains_1.
      destruct (chain_find k (L.firstBinding t)) as [b|] eqn:Hf.
      * apply chain_find_Some in Hf as [Hin <-].
        split; [by eexists|]. intros _. by apply list_elem_of_fmap_2.
      * apply chain_find_None in Hf. split; [done|]. by intros [? ?].
Qed.

Lemma free_releases_every_key_witness :
  (∃ freed, H.SymTable_free (Some (demo_table 3)) = Done freed ∧ NoDup freed)
  ∧ (∃ freed, L.SymTable_free (Some (demo_list 3)) = Done freed
              ∧ NoDup freed).
Proof.
  destruct (free_releases_every_key (P := lp64_unsigned)) as [Hhash Hlist].
  split.
  - destruct (Hhash (demo_table 3)) as (freed & Hfree & Hnd & _).
    + by_evaluation.
    + split; vm_compute; reflexivity.
    + exists freed. split; [exact Hfree|exact Hnd].
  - destruct (Hlist (demo_list 3)) as (freed & Hfree & Hnd & _).
    + by_evaluation.
    + split; vm_compute; reflexivity.
    + exists freed. split; [exact Hfree|exact Hnd].
Defined.

(** ** Invariants of every table *)

(** Whatever calls of put, replace and remove a client makes after a
    successful [SymTable_new], with any arguments and any outcome of the
    allocations, the table has as many chains as [numBuckets] says, every
    binding is in the chain its key hashes to under the current bucket count,
    and no two bindings have the same key. *)
Theorem reachable_tables_are_well_formed {P : Platform} (t : H.SymTable) :
  reachable t →
  Z.of_nat (length (H.buckets t)) = H.numBuckets t
  ∧ (∀ (j : nat) chain b,
       H.buckets t !! j = Some chain → b ∈ chain →
       H.SymTable_hash (Some (key b)) (H.numBuckets t) = Done (Z.of_nat j))
  ∧ NoDup (key <$> concat (H.buckets t))
  ∧ (∀ b, b ∈ concat (H.buckets t) →
          H.SymTable_get (Some t) (Some (key b)) = Done (value b)).
Proof.
  intros Hs%reachable_shape. pose proof Hs as (Hn & Hlen & Hh & Hnd).
  split_and!; try done.
  - intros j chain b Hj Hb.
    rewrite SymTable_hash_Some by (apply shape_positive in Hs; lia).
    by rewrite (chains_hashed_elem _ _ j chain b Hh Hj Hb).
  - intros b Hb. by rewrite SymTable_get_spec, chain_find_NoDup.
Qed.

Lemma reachable_tables_are_well_formed_witness :
  NoDup (key <$> concat (H.buckets (demo_table 1))).
Proof.
  refine (proj1 (proj2 (proj2 (reachable_tables_are_well_formed
                                 (P := lp64_unsigned) (demo_table 1) _)))).
  apply (reachable_put all_ok (demo_table 0) (key_of 0) 1000 1 (demo_table 1)).
  - apply reachable_new. vm_compute. reflexivity.
  - vm_compute. reflexivity.
Defined.

(** ** Sessions *)

Section SessionInvariants.
Context {P : Platform}.

Lemma hash_step_invariants (t t' : H.SymTable) (o : op) (r : observation) :
  shape t → counted t → H.length t + 1 < 2 ^ size_bits →
  hash_step t o = Done (r, t') →
  shape t' ∧ counted t' ∧ H.length t' <= H.length t + 1.
Proof.
  intros Hs Hc Hroom Hstep. pose proof (counted_nonneg t Hc) as Hpos.
  assert (∀ t'', counted t'' → bindings t'' ≡ₚ bindings t →
                 H.length t'' <= H.length t + 1) as Hsame.
  { intros t'' [Hc'' _] Hperm. destruct Hc as [Hc _].
    rewrite Hc'', Hc, Hperm. lia. }
  destruct o as [a [k|] v|[k|]|[k|]|[k|] v|[k|]| |fn extra];
    simpl in Hstep; try done.
  - destruct (H.SymTable_put a (Some t) (Some k) v) as [[r' t'']| |] eqn:Hput;
      [|done..].
    simpl in Hstep. injection Hstep as <- <-.
    pose proof (shape_put a t k v _ _ Hs Hput) as Hs'.
    pose proof (counted_put a t k v _ _ Hs Hc Hroom Hput) as Hc'.
    split_and!; [done|done|].
    destruct (SymTable_put_result a t k v Hs) as (? & ? & Hput' & _ & _ & Hr).
    rewrite Hput in Hput'. injection Hput' as <- <-.
    destruct (chain_find k (bindings t)); [destruct Hr as (_ & _ & ->); lia|].
    destruct (malloc_binding a && malloc_key a);
      [|destruct Hr as (_ & _ & ->); lia].
    destruct Hr as (_ & _ & ->). rewrite size_add_1 by done. lia.
  - destruct (H.SymTable_get (Some t) (Some k)); [|done..].
    simpl in Hstep. injection Hstep as <- <-. split_and!; [done|done|lia].
  - destruct (H.SymTable_contains (Some t) (Some k)); [|done..].
    simpl in Hstep. injection Hstep as <- <-. split_and!; [done|done|lia].
  - destruct (H.SymTable_replace (Some t) (Some k) v) as [[p t'']| |] eqn:Hrep;
      [|done..].
    simpl in Hstep. injection Hstep as <- <-.
    pose proof (counted_replace t k v _ _ Hs Hc Hrep) as Hc'.
    split_and!; [by eapply shape_replace|done|].
    pose proof (SymTable_replace_spec t k v Hs) as Hspec.
    destruct (chain_find k (bindings t)).
    + destruct Hspec as (? & ? & ? & ? & ? & ? & Hrep' & _ & _ & _ & _ & Hlen & _).
      rewrite Hrep in Hrep'. injection Hrep' as _ <-. lia.
    + rewrite Hrep in Hspec. injection Hspec as _ ->. lia.
  - destruct (H.SymTable_remove (Some t) (Some k)) as [[p t'']| |] eqn:Hrem;
      [|done..].
    simpl in Hstep. injection Hstep as <- <-.
    pose proof (counted_remove t k _ _ Hs Hc Hrem) as Hc'.
    split_and!; [by eapply shape_remove|done|].
    pose proof (SymTable_remove_spec t k Hs) as Hspec.
    destruct (chain_find k (bindings t)).
    + destruct Hspec as (? & front & back & ? & ? & ? & Hrem' & _ & Hold & Hnew
                         & _).
      rewrite Hrem in Hrem'. injection Hrem' as _ <-.
      destruct Hc as [Hc _], Hc' as [Hc' _].
      rewrite Hc, Hc', Hold, Hnew, !length_app. simpl. lia.
    + rewrite Hrem in Hspec. injection Hspec as _ ->. lia.
  - injection Hstep as <- <-. split_and!; [done|done|lia].
  - destruct (H.SymTable_map (Some t) (map_function fn) extra []); [|done..].
    simpl in Hstep. injection Hstep as <- <-. split_and!; [done|done|lia].
Qed.

Lemma run_invariants (ops : list op) (t t' : H.SymTable)
    (rs : list observation) :
  shape t → counted t →
  H.length t + Z.of_nat (length ops) < 2 ^ size_bits →
  run hash_step t ops = Done (rs, t') →
  shape t' ∧ counted t' ∧ length rs = length ops.
Proof.
  revert t rs. induction ops as [|o ops IH]; intros t rs Hs Hc Hroom Hrun.
  - injection Hrun as <- <-. done.
  - simpl in Hrun, Hroom.
    destruct (hash_step t o) as [[r t1]| |] eqn:Hstep; [|done..].
    simpl in Hrun.
    destruct (run hash_step t1 ops) as [[rs1 t2]| |] eqn:Hrun1; [|done..].
    simpl in Hrun. injection Hrun as <- <-.
    destruct (hash_step_invariants t t1 o r Hs Hc ltac:(lia) Hstep)
      as (Hs1 & Hc1 & Hlen1).
    destruct (IH t1 rs1 Hs1 Hc1 ltac:(lia) Hrun1) as (Hs2 & Hc2 & Hlen).
    split_and!; [done|done|]. simpl. by rewrite Hlen.
Qed.

End SessionInvariants.

(** After any sequence of fewer than [2^size_bits] calls on a fresh table,
    [length] is the number of bindings in the table, in the hash table and in
    the list, and the list has no two bindings with the same key. *)
Theorem length_counts_the_bindings {P : Platform} (ops : list op) :
  Z.of_nat (length ops) < 2 ^ size_bits →
  (∀ t0 rs t,
     H.SymTable_new true true = Done (Some t0) →
     run hash_step t0 ops = Done (rs, t) →
     H.SymTable_getLength (Some t)
     = Done (Z.of_nat (length (concat (H.buckets t))))
     ∧ length rs = length ops)
  ∧ (∀ t0 rs t,
       L.SymTable_new true = Done (Some t0) →
       run list_step t0 ops = Done (rs, t) →
       L.SymTable_getLength (Some t)
       = Done (Z.of_nat (length (L.firstBinding t)))
       ∧ NoDup (key <$> L.firstBinding t)).
Proof.
  intros Hroom.
  assert (∀ ht0 rs ht,
            H.SymTable_new true true = Done (Some ht0) →
            run hash_step ht0 ops = Done (rs, ht) →
            shape ht ∧ counted ht ∧ length rs = length ops) as Hhash.
  { intros ht0 rs ht Hnew Hrun.
    pose proof (shape_new _ Hnew) as Hs. pose proof (counted_new _ Hnew) as Hc.
    apply (run_invariants ops ht0 ht rs Hs Hc); [|done].
    injection Hnew as <-. simpl H.length. lia. }
  split.
  - intros t0 rs t Hnew Hrun.
    destruct (Hhash t0 rs t Hnew Hrun) as (Hs & [Hc _] & Hlen).
    split; [|done]. unfold H.SymTable_getLength. simpl. by rewrite Hc.
  - intros lt0 rs lt Hnew Hrun. injection Hnew as <-.
    pose proof (run_agrees _ _ ops (sim_new _ SymTable_new_eq)) as Hagree.
    rewrite Hrun in Hagree.
    destruct (run hash_step _ ops) as [[rh ht]| |] eqn:Hrunh; [|done..].
    destruct Hagree as [_ Hsim].
    destruct (Hhash _ rh ht SymTable_new_eq Hrunh) as (Hs & [Hc _] & _).
    pose proof (sim_NoDup _ _ Hsim) as Hnd.
    destruct Hsim as (Hlen & _ & Hperm).
    split; [|done]. unfold L.SymTable_getLength. simpl.
    by rewrite Hlen, Hc, Hperm.
Qed.

Lemma length_counts_the_bindings_witness :
  H.SymTable_getLength (Some (demo_table 3))
  = Done (Z.of_nat (length (concat (H.buckets (demo_table 3))))).
Proof.
  refine (proj1 (proj1 (length_counts_the_bindings (P := lp64_unsigned)
                          (puts 3) _)
                   (demo_table 0) [RetInt 1; RetInt 1; RetInt 1]
                   (demo_table 3) _ _));
    vm_compute; reflexivity.
Defined.

(** ** Puts of different keys *)

Section DistinctPuts.
Context {P : Platform}.

Lemma keys_bindings_of (kvs : list (string * ptr)) :
  key <$> bindings_of kvs = kvs.*1.
Proof.
  unfold bindings_of. rewrite <- list_fmap_compose. done.
Qed.

Lemma hash_run_put (a : Alloc) (t t1 : H.SymTable) (k : string) (v : ptr)
    (r : Z) (ops : list op) :
  H.SymTable_put a (Some t) (Some k) v = Done (r, t1) →
  run hash_step t (Put a (Some k) v :: ops)
  = '(rs, t2) ← run hash_step t1 ops; Done (RetInt r :: rs, t2).
Proof. intros Hput. simpl. by rewrite Hput. Qed.

Lemma list_run_put (a : Alloc) (t t1 : L.SymTable) (k : string) (v : ptr)
    (r : Z) (ops : list op) :
  L.SymTable_put a (Some t) (Some k) v = Done (r, t1) →
  run list_step t (Put a (Some k) v :: ops)
  = '(rs, t2) ← run list_step t1 ops; Done (RetInt r :: rs, t2).
Proof. intros Hput. simpl. by rewrite Hput. Qed.

Lemma run_puts_hash (kvs : list (string * ptr)) (t : H.SymTable) :
  shape t → counted t →
  H.length t + Z.of_nat (length kvs) < 2 ^ size_bits →
  NoDup kvs.*1 →
  (∀ k, k ∈ kvs.*1 → k ∉ key <$> bindings t) →
  ∃ t', run hash_step t (puts_of kvs)
        = Done (replicate (length kvs) (RetInt 1), t')
        ∧ shape t' ∧ counted t'
        ∧ bindings t' ≡ₚ bindings_of kvs ++ bindings t.
Proof.
  revert t. induction kvs as [|[k v] kvs IH]; intros t Hs Hc Hroom Hnd Hnew.
  - exists t. by split_and!.
  - rewrite fmap_cons in Hnd, Hnew. apply NoDup_cons in Hnd as [Hk Hnd].
    simpl in Hroom.
    destruct (SymTable_put_result all_ok t k v Hs)
      as (r & t1 & Hput & Hs1 & _ & Hr).
    assert (chain_find k (bindings t) = None) as Hfree.
    { apply chain_find_None, Hnew. left. }
    rewrite Hfree in Hr. simpl in Hr. destruct Hr as (-> & Hperm & Hlen).
    pose proof (counted_put all_ok t k v 1 t1 Hs Hc ltac:(lia) Hput) as Hc1.
    pose proof (counted_nonneg t Hc).
    destruct (IH t1) as (t' & Hrun & Hs' & Hc' & Hperm'); try done.
    { rewrite Hlen, size_add_1 by lia. lia. }
    { intros k' Hk'. rewrite Hperm, fmap_cons, not_elem_of_cons. split.
      - intros ->. done.
      - apply Hnew. by right. }
    exists t'. split_and!; try done.
    + change (puts_of ((k, v) :: kvs))
        with (Put all_ok (Some k) v :: puts_of kvs).
      by rewrite (hash_run_put _ _ _ _ _ _ _ Hput), Hrun.
    + rewrite Hperm', Hperm. unfold bindings_of. rewrite fmap_cons. simpl.
      symmetry. apply Permutation_middle.
Qed.

Lemma run_puts_list (kvs : list (string * ptr)) (t : L.SymTable) :
  list_counted t →
  L.length t + Z.of_nat (length kvs) < 2 ^ size_bits →
  NoDup kvs.*1 →
  (∀ k, k ∈ kvs.*1 → k ∉ key <$> L.firstBinding t) →
  ∃ t', run list_step t (puts_of kvs)
        = Done (replicate (length kvs) (RetInt 1), t')
        ∧ list_counted t'
        ∧ L.firstBinding t' = reverse (bindings_of kvs) ++ L.firstBinding t.
Proof.
  revert t. induction kvs as [|[k v] kvs IH]; intros t Hc Hroom Hnd Hnew.
  - exists t. by split_and!.
  - rewrite fmap_cons in Hnd, Hnew. apply NoDup_cons in Hnd as [Hk Hnd].
    simpl in Hroom. destruct Hc as [Hc Hlt].
    assert (chain_find k (L.firstBinding t) = None) as Hfree.
    { apply chain_find_None, Hnew. left. }
    destruct (IH {| L.firstBinding :=
                      {| key := k; value := v |} :: L.firstBinding t;
                    L.length := size_add (L.length t) 1 |})
      as (t' & Hrun & Hc' & Hfb).
    { unfold list_counted. simpl. rewrite size_add_1 by lia. split; lia. }
    { simpl. rewrite size_add_1 by lia. lia. }
    { done. }
    { intros k' Hk'. simpl. rewrite not_elem_of_cons. split.
      - intros ->. done.
      - apply Hnew. by right. }
    exists t'. split_and!; try done.
    + change (puts_of ((k, v) :: kvs))
        with (Put all_ok (Some k) v :: puts_of kvs).
      assert (L.SymTable_put all_ok (Some t) (Some k) v
              = Done (1, {| L.firstBinding :=
                              {| key := k; value := v |} :: L.firstBinding t;
                            L.length := size_add (L.length t) 1 |})) as Hput.
      { by rewrite list_put_spec, Hfree. }
      by rewrite (list_run_put _ _ _ _ _ _ _ Hput), Hrun.
    + rewrite Hfb. unfold bindings_of. rewrite fmap_cons, reverse_cons. simpl.
      by rewrite <- app_assoc.
Qed.

End DistinctPuts.

(** Puts of different keys into a fresh table, fewer than [2^size_bits] of
    them and with memory for each, all return 1; afterwards [length] is their
    number and every key put is bound to its value, however many expansions
    the puts ran.  In both implementations. *)
Theorem distinct_puts_are_all_retrievable {P : Platform}
    (kvs : list (string * ptr)) :
  NoDup kvs.*1 →
  Z.of_nat (length kvs) < 2 ^ size_bits →
  (∃ t0 t, H.SymTable_new true true = Done (Some t0)
           ∧ run hash_step t0 (puts_of kvs)
             = Done (replicate (length kvs) (RetInt 1), t)
           ∧ H.SymTable_getLength (Some t) = Done (Z.of_nat (length kvs))
           ∧ ∀ k v, (k, v) ∈ kvs →
                    H.SymTable_get (Some t) (Some k) = Done v
                    ∧ H.SymTable_contains (Some t) (Some k) = Done 1)
  ∧ (∃ t0 t, L.SymTable_new true = Done (Some t0)
             ∧ run list_step t0 (puts_of kvs)
               = Done (replicate (length kvs) (RetInt 1), t)
             ∧ L.SymTable_getLength (Some t) = Done (Z.of_nat (length kvs))
             ∧ ∀ k v, (k, v) ∈ kvs →
                      L.SymTable_get (Some t) (Some k) = Done v
                      ∧ L.SymTable_contains (Some t) (Some k) = Done 1).
Proof.
  intros Hnd Hroom. split.
  - pose proof (shape_new _ SymTable_new_eq) as Hs0.
    pose proof (counted_new _ SymTable_new_eq) as Hc0.
    assert (bindings {| H.buckets := H.calloc_array 509; H.length := 0;
                        H.numBuckets := 509 |} = []) as Hb0.
    { unfold bindings. simpl H.buckets. apply concat_calloc. }
    destruct (run_puts_hash kvs _ Hs0 Hc0) as (t & Hrun & Hs & Hc & Hperm).
    { simpl H.length. lia. }
    { done. }
    { intros k _. rewrite Hb0. apply not_elem_of_nil. }
    rewrite Hb0, app_nil_r in Hperm.
    eexists _, t. split; [apply SymTable_new_eq|]. split; [exact Hrun|].
    split.
    + unfold H.SymTable_getLength. simpl. destruct Hc as [-> _].
      rewrite Hperm. unfold bindings_of. by rewrite length_fmap.
    + intros k v Hkv.
      assert ({| key := k; value := v |} ∈ bindings t) as Hin.
      { rewrite Hperm.
        by apply (list_elem_of_fmap_2
                    (λ kv, {| key := kv.1; value := kv.2 |}) _ (k, v)). }
      pose proof (chain_find_NoDup _ _ (proj2 (proj2 (proj2 Hs))) Hin) as Hf.
      simpl in Hf.
      by rewrite SymTable_get_spec, SymTable_contains_spec, Hf by done.
  - destruct (run_puts_list kvs {| L.firstBinding := []; L.length := 0 |})
      as (t & Hrun & Hc & Hfb).
    { split; [done|apply size_modulus_pos]. }
    { simpl. lia. }
    { done. }
    { intros k _. apply not_elem_of_nil. }
    rewrite app_nil_r in Hfb.
    eexists _, t. split; [reflexivity|]. split; [exact Hrun|].
    split.
    + unfold L.SymTable_getLength. simpl. destruct Hc as [-> _].
      rewrite Hfb, length_reverse. unfold bindings_of. by rewrite length_fmap.
    + intros k v Hkv.
      assert ({| key := k; value := v |} ∈ L.firstBinding t) as Hin.
      { rewrite Hfb, elem_of_reverse.
        by apply (list_elem_of_fmap_2
                    (λ kv, {| key := kv.1; value := kv.2 |}) _ (k, v)). }
      assert (NoDup (key <$> L.firstBinding t)) as Hnd'.
      { by rewrite Hfb, fmap_reverse, reverse_Permutation, keys_bindings_of. }
      pose proof (chain_find_NoDup _ _ Hnd' Hin) as Hf. simpl in Hf.
      by rewrite list_get_spec, list_contains_spec, Hf.
Qed.

Lemma distinct_puts_are_all_retrievable_witness :
  ∃ t0 t, H.SymTable_new true true = Done (Some t0)
          ∧ run (hash_step (P := lp64_unsigned)) t0
              (puts_of [("a"%string, 1); ("b"%string, 2)])
            = Done (replicate 2 (RetInt 1), t)
          ∧ H.SymTable_getLength (Some t) = Done 2.
Proof.
  destruct (proj1 (distinct_puts_are_all_retrievable (P := lp64_unsigned)
                     [("a"%string, 1); ("b"%string, 2)]
                     ltac:(by_evaluation) ltac:(vm_compute; reflexivity)))
    as (t0 & t & Hnew & Hrun & Hlen & _).
  exists t0, t. split; [exact Hnew|]. split; [exact Hrun|exact Hlen].
Defined.

(** In the list every put links the new binding in front of all the others,
    so after puts of different keys map passes the bindings most recently put
    first. *)
Theorem list_map_is_newest_first {P : Platform}
    (kvs : list (string * ptr)) (extra : ptr) :
  NoDup kvs.*1 →
  Z.of_nat (length kvs) < 2 ^ size_bits →
  ∃ t0 t, L.SymTable_new true = Done (Some t0)
          ∧ run list_step t0 (puts_of kvs)
            = Done (replicate (length kvs) (RetInt 1), t)
          ∧ L.SymTable_map (Some t) (Some record_call) extra []
            = Done (reverse ((λ kv, (kv.1, kv.2, extra)) <$> kvs)).
Proof.
  intros Hnd Hroom.
  destruct (run_puts_list kvs {| L.firstBinding := []; L.length := 0 |})
    as (t & Hrun & Hc & Hfb).
  { split; [done|apply size_modulus_pos]. }
  { simpl. lia. }
  { done. }
  { intros k _. apply not_elem_of_nil. }
  rewrite app_nil_r in Hfb.
  eexists _, t. split; [reflexivity|]. split; [exact Hrun|].
  rewrite list_map_spec, foldl_record_call, Hfb. simpl.
  unfold bindings_of. rewrite <- !fmap_reverse, <- list_fmap_compose.
  reflexivity.
Qed.

Lemma list_map_is_newest_first_witness :
  ∃ t0 t, L.SymTable_new true = Done (Some t0)
          ∧ run (list_step (P := lp64_unsigned)) t0
              (puts_of [("a"%string, 1); ("b"%string, 2)])
            = Done (replicate 2 (RetInt 1), t)
          ∧ L.SymTable_map (Some t) (Some record_call) 0 []
            = Done [("b"%string, 2, 0); ("a"%string, 1, 0)].
Proof.
  apply (list_map_is_newest_first (P := lp64_unsigned)
           [("a"%string, 1); ("b"%string, 2)] 0).
  - by_evaluation.
  - vm_compute. reflexivity.
Defined.

(** ** Replace twice *)

Lemma chain_replace_middle (k : string) (v : ptr) (pre post : list Binding)
    (b : Binding) :
  key b = k → k ∉ key <$> pre →
  chain_replace k v (pre ++ b :: post)
  = Some (value b, pre ++ {| key := key b; value := v |} :: post).
Proof.
  intros Hb. induction pre as [|c pre IH]; intros Hpre; simpl.
  - rewrite strcmp_zero. by rewrite bool_decide_true.
  - rewrite fmap_cons in Hpre. apply not_elem_of_cons in Hpre as [Hc Hpre].
    rewrite strcmp_zero, bool_decide_false by done.
    by rewrite IH.
Qed.

(** Replacing a value and then putting the old value back with a second
    replace gives the table as it was, and the second replace returns the
    value the first one stored.  In both implementations. *)
Theorem replace_back_restores {P : Platform} (k : string) (v : ptr) :
  (∀ (t t1 : H.SymTable) (old : ptr),
     shape t →
     H.SymTable_contains (Some t) (Some k) = Done 1 →
     H.SymTable_replace (Some t) (Some k) v = Done (old, t1) →
     H.SymTable_replace (Some t1) (Some k) old = Done (v, t))
  ∧ (∀ (t t1 : L.SymTable) (old : ptr),
       L.SymTable_contains (Some t) (Some k) = Done 1 →
       L.SymTable_replace (Some t) (Some k) v = Done (old, t1) →
       L.SymTable_replace (Some t1) (Some k) old = Done (v, t)).
Proof.
  split.
  - intros t t1 old Hs Hbound%SymTable_contains_1 Hrep; [|done].
    destruct (bucket_of_table t k Hs) as (j & chain & Hj & Hc & Hh & Hr & Hf).
    revert Hrep. unfold H.SymTable_replace. simpl.
    rewrite Hh. simpl. rewrite Hr. simpl.
    destruct (chain_replace k v chain) as [[old' chain']|] eqn:Hcr.
    2: { apply chain_replace_None in Hcr. rewrite Hf in Hcr.
         rewrite Hcr in Hbound. by destruct Hbound. }
    apply chain_replace_Some in Hcr
      as (pre & b & post & -> & Hb & Hpre & -> & ->).
    pose proof (lookup_lt_Some _ _ _ Hc) as Hlt.
    rewrite write_array_Done by lia. simpl. rewrite Nat2Z.id.
    intros [= <- <-]. simpl. rewrite Hh. simpl.
    rewrite (read_array_lookup _ j (pre ++ {| key := k; value := v |} :: post))
      by (by rewrite list_lookup_insert_eq).
    simpl.
    rewrite (chain_replace_middle k (value b) pre post
               {| key := k; value := v |}) by done.
    simpl. rewrite write_array_Done by (rewrite length_insert; lia). simpl.
    rewrite Nat2Z.id, list_insert_insert_eq.
    replace {| key := k; value := value b |} with b
      by (destruct b; simpl in *; by subst).
    rewrite list_insert_id by done. by destruct t.
  - intros t t1 old Hbound%list_contains_1 Hrep.
    revert Hrep. unfold L.SymTable_replace. simpl.
    destruct (chain_replace k v (L.firstBinding t)) as [[old' chain']|] eqn:Hcr.
    2: { apply chain_replace_None in Hcr. rewrite Hcr in Hbound.
         by destruct Hbound. }
    apply chain_replace_Some in Hcr
      as (pre & b & post & Hfb & Hb & Hpre & -> & ->).
    intros [= <- <-]. simpl.
    rewrite (chain_replace_middle k (value b) pre post
               {| key := k; value := v |}) by done.
    simpl.
    replace {| key := k; value := value b |} with b
      by (destruct b; simpl in *; by subst).
    rewrite <- Hfb. by destruct t.
Qed.

Lemma replace_back_restores_witness :
  H.SymTable_replace (P := lp64_unsigned)
    (Some (hash_table_after (P := lp64_unsigned)
             (puts 3 ++ [Replace (Some "aab"%string) 9])))
    (Some "aab"%string) 1001
  = Done (9, demo_table 3).
Proof.
  apply (proj1 (replace_back_restores (P := lp64_unsigned) "aab" 9)
           (demo_table 3) _ 1001).
  - by_evaluation.
  - vm_compute. reflexivity.
  - vm_compute. reflexivity.
Defined.

(** ** The hash function across platforms *)



(** * The order of the chains *)

Section ChainOrder.
Context {P : Platform}.
Implicit Types (bs : list (list Binding)) (chain : list Binding)
  (b : Binding) (k : string) (n : Z) (t : H.SymTable).

Lemma chain_of_cons n (j : nat) b l :
  chain_of n j (b :: l)
  = if decide (hash_index (key b) n = Z.of_nat j)
    then b :: chain_of n j l else chain_of n j l.
Proof. unfold chain_of. by rewrite filter_cons. Qed.

Lemma chain_of_app n (j : nat) l1 l2 :
  chain_of n j (l1 ++ l2) = chain_of n j l1 ++ chain_of n j l2.
Proof. unfold chain_of. apply filter_app. Qed.

(** Pushing the bindings of a chain one by one puts them, reversed, in front
    of what their new chains held. *)
Lemma rehash_chain_order n chain bs :
  0 < n → Z.of_nat (length bs) = n →
  ∃ bs', H.rehash_chain n chain bs = Done bs'
         ∧ length bs' = length bs
         ∧ ∀ (j : nat) c, bs !! j = Some c →
                          bs' !! j = Some (reverse (chain_of n j chain) ++ c).
Proof.
  intros Hn. revert bs. induction chain as [|b chain IH]; intros bs Hlen.
  - exists bs. by split_and!.
  - destruct (bucket_of n bs (key b) Hn Hlen)
      as (j0 & head & Hj0 & Hhead & Hhash & Hread).
    pose proof (lookup_lt_Some _ _ _ Hhead) as Hlt.
    unfold H.rehash_chain. simpl. rewrite Hhash. simpl. rewrite Hread. simpl.
    rewrite write_array_Done by lia. simpl. rewrite Nat2Z.id.
    destruct (IH (<[j0 := b :: head]> bs)) as (bs' & Hrun & Hl & Horder).
    { by rewrite length_insert. }
    exists bs'. split_and!.
    + exact Hrun.
    + by rewrite Hl, length_insert.
    + intros j c Hj. rewrite chain_of_cons.
      destruct (decide (j0 = j)) as [<-|Hne].
      * rewrite decide_True by done. rewrite Hhead in Hj. injection Hj as <-.
        rewrite reverse_cons, <- app_assoc. apply Horder.
        by apply list_lookup_insert_eq.
      * rewrite decide_False by lia. apply Horder.
        by rewrite list_lookup_insert_ne.
Qed.

Lemma rehash_all_order n (old : list (list Binding)) bs :
  0 < n → Z.of_nat (length bs) = n →
  ∃ bs', for_chain old (λ chain bs, H.rehash_chain n chain bs) bs = Done bs'
         ∧ length bs' = length bs
         ∧ ∀ (j : nat) c,
             bs !! j = Some c →
             bs' !! j = Some (reverse (chain_of n j (concat old)) ++ c).
Proof.
  intros Hn. revert bs. induction old as [|chain old IH]; intros bs Hlen.
  - exists bs. by split_and!.
  - destruct (rehash_chain_order n chain bs Hn Hlen)
      as (bs1 & Hrun1 & Hl1 & Horder1).
    destruct (IH bs1) as (bs' & Hrun & Hl & Horder); [lia|].
    exists bs'. simpl. rewrite Hrun1. simpl. split_and!.
    + exact Hrun.
    + by rewrite Hl.
    + intros j c Hj. rewrite chain_of_app, reverse_app, <- app_assoc.
      by apply Horder, Horder1.
Qed.

(** After an expansion every chain holds the bindings of its bucket in the
    reverse of the order the table had them in, bucket after bucket and along
    each chain. *)
Lemma SymTable_expand_order t :
  H.numBuckets t ∈ H.primeBuckCounts →
  H.numBuckets t ≠ 65521 →
  Z.of_nat (length (H.buckets t)) = H.numBuckets t →
  ∃ t', H.SymTable_expand true t = Done t'
        ∧ ∀ j : nat,
            Z.of_nat j < H.numBuckets t' →
            H.buckets t' !! j
            = Some (reverse (chain_of (H.numBuckets t') j
                               (concat (H.buckets t)))).
Proof.
  intros Hn Hmax Hlen.
  destruct (find_index_primes _ Hn) as (i & Hfind & Hi & _ & Hnext).
  destruct (Hnext Hmax) as (n' & Hread & Hi' & Hn' & Hlt).
  pose proof (prime_bounds _ Hn') as Hb.
  destruct (rehash_all_order n' (H.buckets t) (H.calloc_array n'))
    as (bs' & Hrun & Hl & Horder); [lia| |].
  { unfold H.calloc_array. rewrite length_replicate. lia. }
  unfold H.SymTable_expand. rewrite Hfind. simpl. rewrite Hread. simpl.
  rewrite (for_loop_whole_array (H.buckets t) _
             (λ chain bs, H.rehash_chain n' chain bs)) by done.
  rewrite Hrun. simpl. eexists. split; [reflexivity|]. simpl.
  intros j Hj. rewrite (Horder j []); [by rewrite app_nil_r|].
  unfold H.calloc_array. apply lookup_replicate_2. lia.
Qed.

Lemma size_modulus_large : 65536 <= 2 ^ size_bits.
Proof.
  pose proof size_bits_min. change 65536 with (2 ^ 16).
  apply Z.pow_le_mono_r; lia.
Qed.

(** Puts of different, new keys that find at most as many bindings as
    buckets: each chain gets the bindings of its bucket, the last put first,
    in front of what it held. *)
Lemma run_puts_order (kvs : list (string * ptr)) t :
  shape t → counted t →
  NoDup kvs.*1 →
  (∀ k, k ∈ kvs.*1 → k ∉ key <$> bindings t) →
  H.length t + Z.of_nat (length kvs) <= H.numBuckets t + 1 →
  ∃ t', run hash_step t (puts_of kvs)
        = Done (replicate (length kvs) (RetInt 1), t')
        ∧ H.numBuckets t' = H.numBuckets t
        ∧ ∀ (j : nat) chain,
            H.buckets t !! j = Some chain →
            H.buckets t' !! j
            = Some (reverse (chain_of (H.numBuckets t) j (bindings_of kvs))
                      ++ chain).
Proof.
  revert t. induction kvs as [|[k v] kvs IH]; intros t Hs Hc Hnd Hnew Hroom.
  - exists t. by split_and!.
  - rewrite fmap_cons in Hnd, Hnew. apply NoDup_cons in Hnd as [Hk Hnd].
    simpl in Hroom.
    pose proof (prime_bounds _ (proj1 Hs)) as Hb.
    pose proof size_modulus_large as Hbig.
    pose proof (counted_nonneg t Hc) as Hpos.
    assert (grows (calloc_buckets all_ok) t = false) as Hg.
    { unfold grows. destruct (Z.gtb_spec (H.length t) (H.numBuckets t)); [lia|].
      done. }
    assert (chain_find k (bindings t) = None) as Hfree.
    { apply chain_find_None, Hnew. left. }
    destruct (SymTable_put_spec all_ok t k v Hs)
      as (t0 & j0 & chain0 & _ & _ & _ & _ & Hcase & Hj0 & Hchain0 & Hput).
    rewrite Hg in Hcase. subst t0. rewrite Hfree in Hput. simpl in Hput.
    set (t1 := {| H.buckets :=
                    <[j0 := {| key := k; value := v |} :: chain0]> (H.buckets t);
                  H.length := size_add (H.length t) 1;
                  H.numBuckets := H.numBuckets t |}) in *.
    destruct (shape_link t j0 chain0 k v (size_add (H.length t) 1)
                Hs Hj0 Hchain0 Hfree) as [Hs1 Hperm1].
    fold t1 in Hs1, Hperm1.
    pose proof (counted_put all_ok t k v 1 t1 Hs Hc ltac:(lia) Hput) as Hc1.
    destruct (IH t1) as (t' & Hrun & Hnb & Horder); try done.
    { intros k' Hk'. rewrite Hperm1, fmap_cons, not_elem_of_cons. split.
      - intros ->. done.
      - apply Hnew. by right. }
    { simpl. rewrite size_add_1 by lia. lia. }
    exists t'. split_and!.
    + change (puts_of ((k, v) :: kvs))
        with (Put all_ok (Some k) v :: puts_of kvs).
      by rewrite (hash_run_put _ _ _ _ _ _ _ Hput), Hrun.
    + done.
    + intros j chain Hj.
      change (bindings_of ((k, v) :: kvs))
        with ({| key := k; value := v |} :: bindings_of kvs).
      rewrite chain_of_cons. simpl key.
      destruct (decide (j0 = j)) as [<-|Hne].
      * rewrite decide_True by done. rewrite Hchain0 in Hj. injection Hj as <-.
        rewrite reverse_cons, <- app_assoc. apply Horder.
        apply list_lookup_insert_eq. by eapply lookup_lt_Some.
      * rewrite decide_False by lia. apply Horder.
        simpl. by rewrite list_lookup_insert_ne.
Qed.

End ChainOrder.

(** Claim C6, as the code has it. Map applies the function once to every
    binding, with the binding's key and value and [pvExtra], bucket after
    bucket and along each chain: as many calls as [length], the keys all
    different, each value the one get returns; it writes nothing to the table.
    The order along a chain: every successful put links the new binding at
    the head of its chain, in the array the put's expansion left if it ran
    one; so puts of new keys that run no expansion leave in each chain their
    bindings, the last put first, in front of the bindings the chain held;
    and an expansion rebuilds every chain as the reverse of the order in
    which the table had the bindings of that bucket. *)
Theorem map_visits_every_binding {P : Platform} {S : Type}
    (t : H.SymTable) (f : pfApply_t S) (extra : ptr) (s : S) :
  shape t → counted t →
  H.SymTable_map (Some t) (Some f) extra s
  = Done (foldl (λ s b, f (key b) (value b) extra s) s
            (concat (H.buckets t)))
  ∧ H.SymTable_map (Some t) (Some record_call) extra []
    = Done ((λ b, (key b, value b, extra)) <$> concat (H.buckets t))
  ∧ H.SymTable_getLength (Some t)
    = Done (Z.of_nat (length (concat (H.buckets t))))
  ∧ NoDup (key <$> concat (H.buckets t))
  ∧ (∀ b, b ∈ concat (H.buckets t) →
          H.SymTable_get (Some t) (Some (key b)) = Done (value b))
  ∧ (∀ a k v t',
       grows (calloc_buckets a) t = false →
       H.SymTable_put a (Some t) (Some k) v = Done (1, t') →
       ∃ (j : nat) chain,
         H.buckets t !! j = Some chain
         ∧ H.buckets t'
           = <[j := {| key := k; value := v |} :: chain]> (H.buckets t))
  ∧ (∀ a k v t',
       H.SymTable_put a (Some t) (Some k) v = Done (1, t') →
       ∃ t1 (j : nat) chain,
         H.grow_if_needed (calloc_buckets a) t = Done t1
         ∧ H.buckets t1 !! j = Some chain
         ∧ H.buckets t'
           = <[j := {| key := k; value := v |} :: chain]> (H.buckets t1))
  ∧ (H.numBuckets t ≠ 65521 →
     ∃ t1, H.SymTable_expand true t = Done t1
           ∧ ∀ j : nat,
               Z.of_nat j < H.numBuckets t1 →
               H.buckets t1 !! j
               = Some (reverse (chain_of (H.numBuckets t1) j
                                  (concat (H.buckets t)))))
  ∧ (∀ kvs : list (string * ptr),
       NoDup kvs.*1 →
       (∀ k, k ∈ kvs.*1 → H.SymTable_contains (Some t) (Some k) = Done 0) →
       H.length t + Z.of_nat (length kvs) <= H.numBuckets t + 1 →
       ∃ t', run hash_step t (puts_of kvs)
             = Done (replicate (length kvs) (RetInt 1), t')
             ∧ H.numBuckets t' = H.numBuckets t
             ∧ ∀ (j : nat) chain,
                 H.buckets t !! j = Some chain →
                 H.buckets t' !! j
                 = Some (reverse (chain_of (H.numBuckets t) j
                                    (bindings_of kvs))
                           ++ chain)).
Proof.
  intros Hs Hcounted. pose proof Hcounted as [Hc _].
  pose proof Hs as (Hn & Hlen & _ & Hnd).
  fold (bindings t). split_and!.
  - by apply SymTable_map_spec.
  - by rewrite SymTable_map_spec, foldl_record_call.
  - unfold H.SymTable_getLength. simpl. by rewrite Hc.
  - done.
  - intros b Hb. by rewrite SymTable_get_spec, chain_find_NoDup.
  - intros a k v t' Hg Hput.
    destruct (SymTable_put_spec a t k v Hs)
      as (t1 & j & chain & _ & _ & _ & _ & Hcase & _ & Hj & Hput').
    rewrite Hg in Hcase. subst t1. rewrite Hput in Hput'.
    destruct (chain_find k (bindings t)); [done|].
    destruct (malloc_binding a && malloc_key a); [|done].
    injection Hput' as ->. by exists j, chain.
  - intros a k v t' Hput.
    destruct (SymTable_put_spec a t k v Hs)
      as (t1 & j & chain & Hgrow & _ & _ & _ & _ & _ & Hj & Hput').
    rewrite Hput in Hput'.
    destruct (chain_find k (bindings t)); [done|].
    destruct (malloc_binding a && malloc_key a); [|done].
    injection Hput' as ->. by exists t1, j, chain.
  - intros Hmax. by apply SymTable_expand_order.
  - intros kvs Hkeys Hnew Hroom.
    apply run_puts_order; try done.
    intros k Hk. specialize (Hnew k Hk).
    rewrite SymTable_contains_spec in Hnew by done.
    apply chain_find_None. by destruct (chain_find k (bindings t)).
Qed.

Lemma map_visits_every_binding_witness :
  H.SymTable_map (Some (demo_table 3)) (Some record_call) 5 []
  = Done ((λ b, (key b, value b, 5)) <$> concat (H.buckets (demo_table 3))).
Proof.
  refine (proj1 (proj2 (map_visits_every_binding (P := lp64_unsigned)
                          (demo_table 3) record_call 5 [] _ _)));
    by_evaluation.
Defined.

(** The expansion run by the 511th put, chain 15 of 1021: before it the
    table had "aeb", "amd", "aaa", "aic", "aqe" in this order (in the buckets
    224, 239, 471, 486 and 501 of 509); the new chain has them reversed. *)
Example expansion_reverses_bucket_15 :
  chain_of (P := lp64_unsigned) 1021 15 (concat (H.buckets (demo_table 510)))
  = [{| key := "aeb"; value := 1105 |}; {| key := "amd"; value := 1315 |};
     {| key := "aaa"; value := 1000 |}; {| key := "aic"; value := 1210 |};
     {| key := "aqe"; value := 1420 |}]
  ∧ H.buckets (demo_table 511) !! 15%nat
    = Some [{| key := "aqe"; value := 1420 |};
            {| key := "aic"; value := 1210 |};
            {| key := "aaa"; value := 1000 |};
            {| key := "amd"; value := 1315 |};
            {| key := "aeb"; value := 1105 |}].
Proof. vm_compute. split; reflexivity. Qed.
